(** * af-firestore-repo-factory: the typed Firestore repository

    A shallow embedding of [FirestoreRepo] (firestore-repo.ts) and of
    [FirestoreRepoFactory], with the properties of the query translation
    ([applyFilters], [applySorts], [applyLimit], [applyOptions]) and of the
    document operations ([add], [update], [delete], [exists]).

    - JavaScript values are an inductive type; a JS [number] is an IEEE 754
      value ([spec_float]), so that the truthiness test on [options.limit]
      sees zero, minus zero, NaN and the negative numbers.
    - The query builder of the Firestore client is a term algebra: each
      chained call ([where], [orderBy], [startAt], ..., [limit]) is a
      constructor around the query it was called on. The translation is
      given twice: as the calls it chains when each call is accepted, and
      run on a builder that can throw at a call.
    - The methods are programs over the calls of the client, which go on
      with the value or with the error of each call; a client is any
      handler of those calls over a store. *)

From Stdlib Require Import ZArith List Ascii String SpecFloat.
From stdpp Require Import base option list sorting gmap strings pretty.

Local Open Scope string_scope.
Local Open Scope list_scope.

(** ** JavaScript values *)

(** A JS [number]. *)
Definition number : Type := spec_float.

(** [Boolean(n)] for a number: false exactly at [0], [-0] and [NaN]. *)
Definition number_truthy (n : number) : bool :=
  match n with
  | S754_zero _ => false
  | S754_nan => false
  | S754_infinity _ => true
  | S754_finite _ _ _ => true
  end.

(** [n > 0] for a number. *)
Definition number_positive (n : number) : bool :=
  match n with
  | S754_infinity false => true
  | S754_finite false _ _ => true
  | _ => false
  end.

(** The integer [z] as a number (exact for the small literals used here). *)
Definition number_of_Z (z : Z) : number :=
  match z with
  | Z0 => S754_zero false
  | Zpos p => S754_finite false p 0
  | Zneg p => S754_finite true p 0
  end.

(** A defined JS value. *)
#[warnings="-register-all"] Inductive Value : Type :=
| VNull
| VBool (b : bool)
| VNum (n : number)
| VStr (s : string)
| VArr (vs : list Value).

(** The TypeScript type [any]: [None] is [undefined], so that
    [typeof x !== 'undefined'] holds exactly of [Some _]. *)
Definition any : Type := option Value.

(** [Boolean(s)] for an optional string argument: [undefined] and the empty
    string are falsy. *)
Definition string_truthy (s : option string) : bool :=
  match s with
  | None => false
  | Some EmptyString => false
  | Some (String _ _) => true
  end.

(** Errors the client raises. *)
Inductive FirestoreError : Type :=
| PermissionDenied
| Unavailable
| NotFound
| InvalidArgument
| FailedPrecondition.

Inductive Result (A : Type) : Type :=
| Ok (a : A)
| Err (e : FirestoreError).
Arguments Ok {A} a.
Arguments Err {A} e.

(** What a synchronous function can throw: an exception of the JavaScript
    runtime itself, or an error that a call on the client threw. *)
Inductive JsError : Type :=
| TypeError (message : string)
| ClientError (e : FirestoreError).

Inductive JsResult (A : Type) : Type :=
| Returns (a : A)
| Throws (e : JsError).
Arguments Returns {A} a.
Arguments Throws {A} e.

#[global] Instance JsResult_ret : MRet JsResult := fun A a => Returns a.
#[global] Instance JsResult_bind : MBind JsResult := fun A B f m =>
  match m with
  | Returns a => f a
  | Throws e => Throws e
  end.

(** ** filter-specification.ts, sort-specification.ts, fetch-options.ts *)

Inductive WhereFilterOp : Type :=
| OpLt | OpLe | OpEq | OpGt | OpGe | OpNe
| OpArrayContains | OpArrayContainsAny | OpIn | OpNotIn.

Inductive OrderByDirection : Type :=
| Asc | Desc.

Module FilterSpecification.
Record t : Type := mk {
  fieldName : string;
  operator : WhereFilterOp;
  value : any;
}.
End FilterSpecification.

Module SortSpecification.
Record t : Type := mk {
  fieldName : string;
  direction : OrderByDirection;
}.
End SortSpecification.

(** Every property of [FetchOptions] is optional. *)
Record FetchOptions : Type := mkFetchOptions {
  endAt : any;
  endBefore : any;
  filters : option (list FilterSpecification.t);
  limit : option number;
  sorts : option (list SortSpecification.t);
  startAfter : any;
  startAt : any;
}.

(** The options object [{}]. *)
Definition noOptions : FetchOptions :=
  {| endAt := None; endBefore := None; filters := None; limit := None;
     sorts := None; startAfter := None; startAt := None |}.

(** ** The query builder of the client *)

(** A [Query<DocumentData>]: the collection reference it started from and
    the builder calls chained on it, innermost first. The term records the
    calls that were made and accepted; a [Builder], below, says which calls
    the client rejects. *)
Inductive Query : Type :=
| CollectionRef (path : string)
| Where (q : Query) (fieldPath : string) (opStr : WhereFilterOp) (v : any)
| OrderBy (q : Query) (fieldPath : string) (directionStr : OrderByDirection)
| StartAt (q : Query) (v : Value)
| StartAfter (q : Query) (v : Value)
| EndAt (q : Query) (v : Value)
| EndBefore (q : Query) (v : Value)
| Limit (q : Query) (n : number).

(** [query || ref], with [None] for a [null] query. *)
Definition orElse (query : option Query) (ref : Query) : Query :=
  match query with
  | Some q => q
  | None => ref
  end.

(** A method call [query.m(...)] on a possibly [null] receiver. *)
Definition invoke (query : option Query) (method : string) (m : Query -> Query)
  : JsResult (option Query) :=
  match query with
  | Some q => Returns (Some (m q))
  | None => Throws (TypeError ("Cannot read properties of null, reading " +:+ method))
  end.

(** One call on the builder, without the query it is made on. *)
Inductive Clause : Type :=
| CWhere (fieldPath : string) (opStr : WhereFilterOp) (v : any)
| COrderBy (fieldPath : string) (directionStr : OrderByDirection)
| CStartAt (v : Value)
| CStartAfter (v : Value)
| CEndAt (v : Value)
| CEndBefore (v : Value)
| CLimit (n : number).

Definition chainClause (q : Query) (c : Clause) : Query :=
  match c with
  | CWhere f o v => Where q f o v
  | COrderBy f d => OrderBy q f d
  | CStartAt v => StartAt q v
  | CStartAfter v => StartAfter q v
  | CEndAt v => EndAt q v
  | CEndBefore v => EndBefore q v
  | CLimit n => Limit q n
  end.

(** The builder as the client provides it: the client accepts a call, which
    then yields the query with the call chained, or it throws, as it does
    for a call or a combination of calls that it does not allow. *)
Record Builder : Type := mkBuilder {
  reject : Query -> Clause -> option FirestoreError;
}.

(** [query.m(...)] on the builder of the client. *)
Definition chainOn (b : Builder) (query : Query) (c : Clause) : JsResult Query :=
  match reject b query c with
  | Some e => Throws (ClientError e)
  | None => Returns (chainClause query c)
  end.

(** [query.m(...)] on a possibly [null] receiver. *)
Definition invokeOn (b : Builder) (query : option Query) (method : string) (c : Clause)
  : JsResult (option Query) :=
  match query with
  | Some q => q' ← chainOn b q c; Returns (Some q')
  | None => Throws (TypeError ("Cannot read properties of null, reading " +:+ method))
  end.

(** [for (const x of l) { query = body(query, x); }], where the body can
    throw. *)
Fixpoint forEach {A : Type} (l : list A)
    (body : option Query -> A -> JsResult (option Query)) (query : option Query)
  : JsResult (option Query) :=
  match l with
  | [] => Returns query
  | x :: l' => query ← body query x; forEach l' body query
  end.

(** A builder that accepts every call. *)
Definition permissive : Builder := mkBuilder (fun _ _ => None).

(** A reference builder. Like the builder of the Firestore client it
    requires a positive number in [limit()] and a defined value in
    [where()]; it accepts every other call. *)
Definition firestoreBuilder : Builder :=
  mkBuilder (fun _ c =>
               match c with
               | CLimit n => if number_positive n then None else Some InvalidArgument
               | CWhere _ _ None => Some InvalidArgument
               | _ => None
               end).

(** ** Documents, entities and the calls of the client *)

(** [DocumentData]: a JS object, as a finite map from property names. *)
Abbreviation DocumentData := (gmap string Value).

(** firestore-entity.ts: [interface FirestoreEntity { id?: string }]. An
    entity is its optional [id] and its other properties: [fields] is meant
    without the key [id], and where a property depends on that it says so. *)
Module FirestoreEntity.
Record t : Type := mk {
  id : option string;
  fields : DocumentData;
}.
End FirestoreEntity.

(** The entity as the object that is handed to the client: the [id]
    property is part of it when it is set. *)
Definition toData (item : FirestoreEntity.t) : DocumentData :=
  match FirestoreEntity.id item with
  | Some i => <["id" := VStr i]> (FirestoreEntity.fields item)
  | None => FirestoreEntity.fields item
  end.

(** The object spread [{ ...item, id: docRefId }]. *)
Definition withId (item : FirestoreEntity.t) (docRefId : string) : FirestoreEntity.t :=
  {| FirestoreEntity.id := Some docRefId;
     FirestoreEntity.fields := FirestoreEntity.fields item |}.

Module DocumentReference.
Record t : Type := mk {
  path : string;
  id : string;
}.
End DocumentReference.

Module DocumentSnapshot.
Record t : Type := mk {
  ref : DocumentReference.t;
  data : option DocumentData;
}.
(** The [exists] property of the snapshot. *)
Definition exists_ (doc : t) : bool :=
  match data doc with
  | Some _ => true
  | None => false
  end.
End DocumentSnapshot.

Inductive DocumentChangeType : Type :=
| Added | Modified | Removed.

(** The calls the repository makes on the client for its one-shot
    operations: [collection(path).add(data)], [collection(path).doc(id)]
    and the four operations of a document reference. *)
Inductive ClientCall : Type :=
| Collection_add (path : string) (data : DocumentData)
| Collection_doc (path : string) (id : option string)
| Ref_set (docRef : DocumentReference.t) (data : DocumentData)
| Ref_update (docRef : DocumentReference.t) (data : DocumentData)
| Ref_delete (docRef : DocumentReference.t)
| Ref_get (docRef : DocumentReference.t).

(** What each call yields when it succeeds. *)
Definition Response (c : ClientCall) : Type :=
  match c with
  | Collection_add _ _ => DocumentReference.t
  | Collection_doc _ _ => DocumentReference.t
  | Ref_set _ _ => unit
  | Ref_update _ _ => unit
  | Ref_delete _ => unit
  | Ref_get _ => DocumentSnapshot.t
  end.

(** The body of a method: it ends by resolving with a value, by rejecting
    or by throwing, or it makes a call on the client and goes on with what
    the call gave, a value or an error. A body that goes on after an error
    can recover from it, retry the call or replace the error. *)
Inductive Program (A : Type) : Type :=
| Resolve (a : A)
| Reject (e : FirestoreError)
| Throw (e : FirestoreError)
| Call (c : ClientCall) (k : Result (Response c) -> Program A).
Arguments Resolve {A} a.
Arguments Reject {A} e.
Arguments Throw {A} e.
Arguments Call {A} c k.

(** [await c] (or [return c]) outside any [try] block, for a call that
    returns a promise: the rejection of the promise is the rejection of the
    method. *)
Definition Await {A : Type} (c : ClientCall) (k : Response c -> Program A) : Program A :=
  Call c (fun r =>
            match r with
            | Ok x => k x
            | Err e => Reject e
            end).

(** A call that returns its value at once, as [doc(id)] does, outside any
    [try] block: what the call throws leaves the method as an exception. *)
Definition Invoke {A : Type} (c : ClientCall) (k : Response c -> Program A) : Program A :=
  Call c (fun r =>
            match r with
            | Ok x => k x
            | Err e => Throw e
            end).

(** The body of an [async] function: an exception thrown inside it rejects
    the promise the function returns. *)
Fixpoint async {A : Type} (p : Program A) : Program A :=
  match p with
  | Resolve a => Resolve a
  | Reject e => Reject e
  | Throw e => Reject e
  | Call c k => Call c (fun r => async (k r))
  end.

(** A client: a handler of the calls over the state of a store. *)
Record Client (S : Type) : Type := mkClient {
  handle : forall c : ClientCall, S -> Result (Response c * S);
}.
Arguments handle {S} _ c _.

(** Running a method body against a client: the value and the state of
    the store when it resolves, the error when it rejects or throws. A call
    that fails leaves the store as it was. *)
Fixpoint run {S A : Type} (cl : Client S) (p : Program A) (s : S) : Result (A * S) :=
  match p with
  | Resolve a => Ok (a, s)
  | Reject e => Err e
  | Throw e => Err e
  | Call c k =>
      match handle cl c s with
      | Ok (x, s') => run cl (k (Ok x)) s'
      | Err e => run cl (k (Err e)) s
      end
  end.

(** The calls a method body issues on the client, in order. *)
Fixpoint trace {S A : Type} (cl : Client S) (p : Program A) (s : S) : list ClientCall :=
  match p with
  | Resolve _ => []
  | Reject _ => []
  | Throw _ => []
  | Call c k =>
      c :: match handle cl c s with
           | Ok (x, s') => trace cl (k (Ok x)) s'
           | Err e => trace cl (k (Err e)) s
           end
  end.

(** How a method ends for its caller: it resolves, the promise it returned
    is rejected, or it throws before returning anything. *)
Inductive Settled (A S : Type) : Type :=
| Fulfilled (a : A) (s : S)
| RejectedWith (e : FirestoreError)
| ThrownWith (e : FirestoreError).
Arguments Fulfilled {A S} a s.
Arguments RejectedWith {A S} e.
Arguments ThrownWith {A S} e.

Fixpoint settle {S A : Type} (cl : Client S) (p : Program A) (s : S) : Settled A S :=
  match p with
  | Resolve a => Fulfilled a s
  | Reject e => RejectedWith e
  | Throw e => ThrownWith e
  | Call c k =>
      match handle cl c s with
      | Ok (x, s') => settle cl (k (Ok x)) s'
      | Err e => settle cl (k (Err e)) s
      end
  end.

(** The live streams the repository hands back: which client stream, over
    which query or document. *)
Inductive Observable : Type :=
| Collection_valueChanges (query : Query) (idField : string)
| Collection_snapshotChanges (query : Query) (events : option (list DocumentChangeType))
| Doc_valueChanges (docRef : DocumentReference.t) (idField : string)
| Doc_snapshotChanges (docRef : DocumentReference.t).

(** ** firestore-repo.ts *)

Module FirestoreRepo.

(** The repository is bound to a collection path; the client handle of
    the constructor is the [Client] the operations are run against. *)
Record t : Type := new {
  collectionPath : string;
}.

(** [public async add(item, id?)] *)
Definition add (this : t) (item : FirestoreEntity.t) (id : option string)
  : Program FirestoreEntity.t :=
  async
    (let generated :=
       Await (Collection_add (collectionPath this) (toData item))
         (fun docRef => Resolve (withId item (DocumentReference.id docRef))) in
     match id with
     | Some id =>
         if negb (string_truthy (Some id)) then generated
         else
           Invoke (Collection_doc (collectionPath this) (Some id))
             (fun docRef =>
                Await (Ref_set docRef (toData item))
                  (fun _ => Resolve (withId item (DocumentReference.id docRef))))
     | None => generated
     end).

(** [public delete(id)]: not [async], it returns the promise of
    [docRef.delete()]. *)
Definition delete (this : t) (id : string) : Program unit :=
  Invoke (Collection_doc (collectionPath this) (Some id))
    (fun docRef => Await (Ref_delete docRef) (fun _ => Resolve tt)).

(** [public async exists(id)] *)
Definition exists_ (this : t) (id : string) : Program bool :=
  async
    (Invoke (Collection_doc (collectionPath this) (Some id))
       (fun docRef =>
          Await (Ref_get docRef) (fun doc => Resolve (DocumentSnapshot.exists_ doc)))).

(** [public update(item)]: not [async], it returns the promise of
    [docRef.update(item)]. *)
Definition update (this : t) (item : FirestoreEntity.t) : Program unit :=
  Invoke (Collection_doc (collectionPath this) (FirestoreEntity.id item))
    (fun docRef => Await (Ref_update docRef (toData item)) (fun _ => Resolve tt)).

Definition applyFilters (options : FetchOptions) (query : option Query) (ref : Query)
  : option Query :=
  match filters options with
  | Some fs =>
      if negb (length fs =? 0)%nat then
        fold_left
          (fun query filter =>
             Some (Where (orElse query ref)
                     (FilterSpecification.fieldName filter)
                     (FilterSpecification.operator filter)
                     (FilterSpecification.value filter)))
          fs query
      else query
  | None => query
  end.

Definition applyLimit (options : FetchOptions) (query : option Query) (ref : Query)
  : option Query :=
  match limit options with
  | Some n =>
      if number_truthy n then Some (Limit (orElse query ref) n) else query
  | None => query
  end.

(** One [if (typeof options.c !== 'undefined') { query = query.c(options.c); }]. *)
Definition applyCursor (c : any) (method : string) (m : Query -> Value -> Query)
    (query : option Query) : JsResult (option Query) :=
  match c with
  | Some v => invoke query method (fun q => m q v)
  | None => Returns query
  end.

Definition applySorts (options : FetchOptions) (query : option Query) (ref : Query)
  : JsResult (option Query) :=
  match sorts options with
  | Some ss =>
      if negb (length ss =? 0)%nat then
        let query :=
          fold_left
            (fun query sort =>
               Some (OrderBy (orElse query ref)
                       (SortSpecification.fieldName sort)
                       (SortSpecification.direction sort)))
            ss query in
        query ← applyCursor (startAt options) "startAt" StartAt query;
        query ← applyCursor (startAfter options) "startAfter" StartAfter query;
        query ← applyCursor (endAt options) "endAt" EndAt query;
        query ← applyCursor (endBefore options) "endBefore" EndBefore query;
        Returns query
      else Returns query
  | None => Returns query
  end.

Definition applyOptions (options : FetchOptions) (ref : Query)
  : JsResult (option Query) :=
  let query : option Query := None in
  let query := applyFilters options query ref in
  query ← applySorts options query ref;
  let query := applyLimit options query ref in
  Returns query.

(** The query function handed to [collection(path, queryFn)]:
    [(ref) => { const query = this.applyOptions(options, ref); return query || ref; }]. *)
Definition queryFn (options : FetchOptions) (ref : Query) : JsResult Query :=
  query ← applyOptions options ref;
  Returns (orElse query ref).

(** [options] defaults to the empty object. *)
Definition fetch (this : t) (options : option FetchOptions) : JsResult Observable :=
  let options := default noOptions options in
  query ← queryFn options (CollectionRef (collectionPath this));
  Returns (Collection_valueChanges query "id").

Definition fetchSnapshots (this : t) (options : option FetchOptions)
    (events : option (list DocumentChangeType)) : JsResult Observable :=
  let options := default noOptions options in
  query ← queryFn options (CollectionRef (collectionPath this));
  Returns (Collection_snapshotChanges query events).

(** *** The translation against a client that can reject a call

    The methods above give the calls the translation chains when the client
    accepts each of them. The methods below are the same code run on a
    builder [b] that can throw at a call. *)

Definition applyFiltersWith (b : Builder) (options : FetchOptions)
    (query : option Query) (ref : Query) : JsResult (option Query) :=
  match filters options with
  | Some fs =>
      if negb (length fs =? 0)%nat then
        forEach fs
          (fun query filter =>
             query ← chainOn b (orElse query ref)
                       (CWhere (FilterSpecification.fieldName filter)
                               (FilterSpecification.operator filter)
                               (FilterSpecification.value filter));
             Returns (Some query))
          query
      else Returns query
  | None => Returns query
  end.

Definition applyLimitWith (b : Builder) (options : FetchOptions)
    (query : option Query) (ref : Query) : JsResult (option Query) :=
  match limit options with
  | Some n =>
      if number_truthy n then
        query ← chainOn b (orElse query ref) (CLimit n);
        Returns (Some query)
      else Returns query
  | None => Returns query
  end.

Definition applyCursorWith (b : Builder) (c : any) (method : string)
    (m : Value -> Clause) (query : option Query) : JsResult (option Query) :=
  match c with
  | Some v => invokeOn b query method (m v)
  | None => Returns query
  end.

Definition applySortsWith (b : Builder) (options : FetchOptions)
    (query : option Query) (ref : Query) : JsResult (option Query) :=
  match sorts options with
  | Some ss =>
      if negb (length ss =? 0)%nat then
        query ← forEach ss
                  (fun query sort =>
                     query ← chainOn b (orElse query ref)
                               (COrderBy (SortSpecification.fieldName sort)
                                         (SortSpecification.direction sort));
                     Returns (Some query))
                  query;
        query ← applyCursorWith b (startAt options) "startAt" CStartAt query;
        query ← applyCursorWith b (startAfter options) "startAfter" CStartAfter query;
        query ← applyCursorWith b (endAt options) "endAt" CEndAt query;
        query ← applyCursorWith b (endBefore options) "endBefore" CEndBefore query;
        Returns query
      else Returns query
  | None => Returns query
  end.

Definition applyOptionsWith (b : Builder) (options : FetchOptions) (ref : Query)
  : JsResult (option Query) :=
  let query : option Query := None in
  query ← applyFiltersWith b options query ref;
  query ← applySortsWith b options query ref;
  query ← applyLimitWith b options query ref;
  Returns query.

Definition queryFnWith (b : Builder) (options : FetchOptions) (ref : Query)
  : JsResult Query :=
  query ← applyOptionsWith b options ref;
  Returns (orElse query ref).

Definition fetchWith (b : Builder) (this : t) (options : option FetchOptions)
  : JsResult Observable :=
  let options := default noOptions options in
  query ← queryFnWith b options (CollectionRef (collectionPath this));
  Returns (Collection_valueChanges query "id").

Definition fetchSnapshotsWith (b : Builder) (this : t) (options : option FetchOptions)
    (events : option (list DocumentChangeType)) : JsResult Observable :=
  let options := default noOptions options in
  query ← queryFnWith b options (CollectionRef (collectionPath this));
  Returns (Collection_snapshotChanges query events).

(** [get] and [getSnapshot] resolve the document reference and hand back
    the stream of the client over it. *)
Definition get (this : t) (id : string) : Program Observable :=
  Invoke (Collection_doc (collectionPath this) (Some id))
    (fun docRef => Resolve (Doc_valueChanges docRef "id")).

Definition getSnapshot (this : t) (id : string) : Program Observable :=
  Invoke (Collection_doc (collectionPath this) (Some id))
    (fun docRef => Resolve (Doc_snapshotChanges docRef)).

End FirestoreRepo.

(** ** firestore-repo-factory.service.ts *)

Module FirestoreRepoFactory.
Definition create (collectionPath : string) : FirestoreRepo.t :=
  FirestoreRepo.new collectionPath.
End FirestoreRepoFactory.

(** ** The builder calls of a query, in the order they were chained *)

Fixpoint clauses (q : Query) : list Clause :=
  match q with
  | CollectionRef _ => []
  | Where q f o v => clauses q ++ [CWhere f o v]
  | OrderBy q f d => clauses q ++ [COrderBy f d]
  | StartAt q v => clauses q ++ [CStartAt v]
  | StartAfter q v => clauses q ++ [CStartAfter v]
  | EndAt q v => clauses q ++ [CEndAt v]
  | EndBefore q v => clauses q ++ [CEndBefore v]
  | Limit q n => clauses q ++ [CLimit n]
  end.

(** The collection a query reads. *)
Fixpoint collectionOf (q : Query) : string :=
  match q with
  | CollectionRef path => path
  | Where q _ _ _ | OrderBy q _ _ | StartAt q _ | StartAfter q _
  | EndAt q _ | EndBefore q _ | Limit q _ => collectionOf q
  end.

(** The query obtained by chaining the calls [cs] on [ref]. *)
Definition chain (ref : Query) (cs : list Clause) : Query :=
  fold_left chainClause cs ref.

(** The accumulating [query] variable after the calls [cs]: still [null]
    when nothing was chained. *)
Definition chained (ref : Query) (cs : list Clause) : option Query :=
  match cs with
  | [] => None
  | _ :: _ => Some (chain ref cs)
  end.

(** The error with which the client answers the first call it rejects, when
    the calls [cs] are chained on [q] one after the other. *)
Fixpoint firstRejection (b : Builder) (q : Query) (cs : list Clause)
  : option FirestoreError :=
  match cs with
  | [] => None
  | c :: cs' =>
      match reject b q c with
      | Some e => Some e
      | None => firstRejection b (chainClause q c) cs'
      end
  end.

(** The accumulating [query] after the calls [added] were attempted on the
    query that carries [cs]: the client's error at the first call it
    rejects, else the query with all of them. *)
Definition attempted (b : Builder) (ref : Query) (cs added : list Clause)
  : JsResult (option Query) :=
  match firstRejection b (chain ref cs) added with
  | Some e => Throws (ClientError e)
  | None => Returns (chained ref (cs ++ added))
  end.

Definition isWhere (c : Clause) : bool :=
  match c with CWhere _ _ _ => true | _ => false end.

Definition isCursor (c : Clause) : bool :=
  match c with
  | CStartAt _ | CStartAfter _ | CEndAt _ | CEndBefore _ => true
  | _ => false
  end.

Definition isLimit (c : Clause) : bool :=
  match c with CLimit _ => true | _ => false end.

(** ** The translation as the design describes it

    Filters in array order, then the sorts in array order followed by the
    cursors that are present, in the sequence [startAt], [startAfter],
    [endAt], [endBefore], then the limit. These definitions follow the
    description; [applyOptions_chained] compares the code with them. *)

Definition whereOf (filter : FilterSpecification.t) : Clause :=
  CWhere (FilterSpecification.fieldName filter)
         (FilterSpecification.operator filter)
         (FilterSpecification.value filter).

Definition orderByOf (sort : SortSpecification.t) : Clause :=
  COrderBy (SortSpecification.fieldName sort) (SortSpecification.direction sort).

Definition expectedFilters (options : FetchOptions) : list Clause :=
  match filters options with
  | Some fs => map whereOf fs
  | None => []
  end.

Definition expectedSorts (options : FetchOptions) : list Clause :=
  match sorts options with
  | Some ss => map orderByOf ss
  | None => []
  end.

Definition expectedCursors (options : FetchOptions) : list Clause :=
  option_list (CStartAt <$> startAt options)
  ++ option_list (CStartAfter <$> startAfter options)
  ++ option_list (CEndAt <$> endAt options)
  ++ option_list (CEndBefore <$> endBefore options).

(** At least one sort specification is present. *)
Definition hasSorts (options : FetchOptions) : bool :=
  match sorts options with
  | Some (_ :: _) => true
  | _ => false
  end.

Definition expectedPaging (options : FetchOptions) : list Clause :=
  if hasSorts options then expectedSorts options ++ expectedCursors options else [].

Definition expectedLimit (options : FetchOptions) : list Clause :=
  match limit options with
  | Some n => if number_truthy n then [CLimit n] else []
  | None => []
  end.

Definition expectedClauses (options : FetchOptions) : list Clause :=
  expectedFilters options ++ expectedPaging options ++ expectedLimit options.

(** The options with other cursor values. *)
Definition withCursors (options : FetchOptions) (startAt' startAfter' endAt' endBefore' : any)
  : FetchOptions :=
  {| endAt := endAt'; endBefore := endBefore'; filters := filters options;
     limit := limit options; sorts := sorts options;
     startAfter := startAfter'; startAt := startAt' |}.

(** The options with another filter array. *)
Definition withFilters (options : FetchOptions) (fs : list FilterSpecification.t)
  : FetchOptions :=
  {| endAt := endAt options; endBefore := endBefore options; filters := Some fs;
     limit := limit options; sorts := sorts options;
     startAfter := startAfter options; startAt := startAt options |}.

(** ** What a query selects

    Modelled from the spec: the evaluation of a query belongs to the
    document store, which is not part of this repository. Per the design, the
    chained filters are predicates that combine conjunctively, and ordering,
    cursors and limit then arrange the matching documents. The predicate of
    one filter ([matches]) and the arrangement ([arrange]) stay those of the
    store. *)

Section QuerySemantics.

Variable matches : string -> WhereFilterOp -> any -> DocumentData -> bool.
Variable arrange : list Clause -> list DocumentData -> list DocumentData.

Definition satisfies (c : Clause) (d : DocumentData) : bool :=
  match c with
  | CWhere f o v => matches f o v d
  | _ => true
  end.

(** The document passes one filter specification. *)
Definition passes (d : DocumentData) (filter : FilterSpecification.t) : bool :=
  matches (FilterSpecification.fieldName filter)
          (FilterSpecification.operator filter)
          (FilterSpecification.value filter) d.

(** The matching result set: the documents that pass every filter. *)
Definition matching (q : Query) (docs : list DocumentData) : list DocumentData :=
  List.filter (fun d => forallb (fun c => satisfies c d) (clauses q)) docs.

(** The ordering, cursor and limit calls of the query. *)
Definition arrangement (q : Query) : list Clause :=
  List.filter (fun c => negb (isWhere c)) (clauses q).

(** The documents the query yields, out of those of its collection. *)
Definition results (q : Query) (docs : list DocumentData) : list DocumentData :=
  match arrangement q with
  | [] => matching q docs
  | cs => arrange cs (matching q docs)
  end.

End QuerySemantics.

(** ** A reference client

    Modelled from the spec: the document-database client is an external
    collaborator. This in-memory store follows its contract in the design:
    create with a generated id, create or replace at an explicit id, delete
    by id (no error when absent), point lookup, and partial update by id,
    which fails when the identifier is absent or the document does not
    exist. [fault] is the error (permission denial, network failure) with
    which the store rejects the operations that reach it. *)

Record Store : Type := mkStore {
  documents : gmap (string * string) DocumentData;
  generated : nat;
  fault : option FirestoreError;
}.

(** The id of the [n]-th generated document. *)
Definition autoId (n : nat) : string := "auto-" +:+ pretty n.

Definition keyOf (docRef : DocumentReference.t) : string * string :=
  (DocumentReference.path docRef, DocumentReference.id docRef).

Definition withDocuments (s : Store) (docs : gmap (string * string) DocumentData) : Store :=
  {| documents := docs; generated := generated s; fault := fault s |}.

(** An operation that reaches the store. *)
Definition reach {A : Type} (s : Store) (r : Result (A * Store)) : Result (A * Store) :=
  match fault s with
  | Some e => Err e
  | None => r
  end.

Definition storeHandle (c : ClientCall) : Store -> Result (Response c * Store) :=
  match c return Store -> Result (Response c * Store) with
  | Collection_add path data => fun s =>
      let docRef := DocumentReference.mk path (autoId (generated s)) in
      reach s (Ok (docRef,
                   {| documents := <[keyOf docRef := data]> (documents s);
                      generated := S (generated s);
                      fault := fault s |}))
  | Collection_doc path id => fun s =>
      match id with
      | Some i => Ok (DocumentReference.mk path i, s)
      | None => Err InvalidArgument
      end
  | Ref_set docRef data => fun s =>
      reach s (Ok (tt, withDocuments s (<[keyOf docRef := data]> (documents s))))
  | Ref_update docRef data => fun s =>
      reach s
        match documents s !! keyOf docRef with
        | Some old => Ok (tt, withDocuments s (<[keyOf docRef := data ∪ old]> (documents s)))
        | None => Err NotFound
        end
  | Ref_delete docRef => fun s =>
      reach s (Ok (tt, withDocuments s (delete (keyOf docRef) (documents s))))
  | Ref_get docRef => fun s =>
      reach s (Ok (DocumentSnapshot.mk docRef (documents s !! keyOf docRef), s))
  end.

Definition storeClient : Client Store := mkClient Store storeHandle.

(** ** Sample data *)

(** The repository of the collection [todos]. *)
Definition todos : FirestoreRepo.t := FirestoreRepoFactory.create "todos".

Definition todosRef : Query := CollectionRef "todos".

(** An entity that was not stored yet: [{ name: 'Test Add', timeStamp: 12345 }]. *)
Definition testEntity : FirestoreEntity.t :=
  {| FirestoreEntity.id := None;
     FirestoreEntity.fields :=
       <["name" := VStr "Test Add"]> (<["timeStamp" := VNum (number_of_Z 12345)]> ∅) |}.

(** The fragment [{ id: 'abc123', name: 'Test Update Changed' }]. *)
Definition testFragment : FirestoreEntity.t :=
  {| FirestoreEntity.id := Some "abc123";
     FirestoreEntity.fields := <["name" := VStr "Test Update Changed"]> ∅ |}.

Definition emptyStore : Store :=
  {| documents := ∅; generated := 0; fault := None |}.

(** A store that holds [testEntity] at [todos/abc123]. *)
Definition oneDocStore : Store :=
  {| documents := <[("todos", "abc123") := toData testEntity]> ∅;
     generated := 0; fault := None |}.

(** A store whose security rules deny every operation. *)
Definition deniedStore : Store :=
  {| documents := ∅; generated := 0; fault := Some PermissionDenied |}.

Definition byTimeStamp : SortSpecification.t :=
  SortSpecification.mk "timeStamp" Asc.

Definition nameIsFiltered : FilterSpecification.t :=
  FilterSpecification.mk "name" OpEq (Some (VStr "Filtered")).

Definition timeStampIs12345 : FilterSpecification.t :=
  FilterSpecification.mk "timeStamp" OpEq (Some (VNum (number_of_Z 12345))).

(** [{ limit: -1 }] *)
Definition limitMinusOne : FetchOptions :=
  {| endAt := None; endBefore := None; filters := None;
     limit := Some (number_of_Z (-1));
     sorts := None; startAfter := None; startAt := None |}.

(** [{ startAfter: 12345 }]: a cursor and no sort. *)
Definition cursorOnly : FetchOptions :=
  {| endAt := None; endBefore := None; filters := None; limit := None;
     sorts := None; startAfter := Some (VNum (number_of_Z 12345)); startAt := None |}.

(** [{ filters: [], sorts: [], limit: 0 }] *)
Definition emptyArraysZeroLimit : FetchOptions :=
  {| endAt := None; endBefore := None; filters := Some [];
     limit := Some (number_of_Z 0);
     sorts := Some []; startAfter := None; startAt := None |}.

(** [{ sorts: [{ fieldName: 'timeStamp', direction: 'asc' }], startAt: 1,
       startAfter: 2, endAt: 3, endBefore: 4, limit: 2 }] *)
Definition sortedAllCursors : FetchOptions :=
  {| endAt := Some (VNum (number_of_Z 3)); endBefore := Some (VNum (number_of_Z 4));
     filters := None; limit := Some (number_of_Z 2);
     sorts := Some [byTimeStamp];
     startAfter := Some (VNum (number_of_Z 2)); startAt := Some (VNum (number_of_Z 1)) |}.

(** [{ filters: [name == 'Filtered', timeStamp == 12345] }] *)
Definition twoFilters : FetchOptions :=
  {| endAt := None; endBefore := None;
     filters := Some [nameIsFiltered; timeStampIs12345];
     limit := None; sorts := None; startAfter := None; startAt := None |}.

(** ** Stages of a built query, parts of the options, kinds of client calls *)

Definition isOrderBy (c : Clause) : bool :=
  match c with COrderBy _ _ => true | _ => false end.

(** The place of a builder call in the sequence filters, sorts, [startAt],
    [startAfter], [endAt], [endBefore], limit. *)
Definition rank (c : Clause) : nat :=
  match c with
  | CWhere _ _ _ => 0
  | COrderBy _ _ => 1
  | CStartAt _ => 2
  | CStartAfter _ => 3
  | CEndAt _ => 4
  | CEndBefore _ => 5
  | CLimit _ => 6
  end.

(** [a] may be chained before [b]: never a later stage first, and a cursor
    or a limit never twice. *)
Definition before (a b : Clause) : Prop :=
  rank a <= rank b /\ (2 <= rank a -> rank a < rank b).

(** The options reduced to their filters, to their sorts and cursors, and
    to their limit. *)
Definition onlyFilters (options : FetchOptions) : FetchOptions :=
  {| endAt := None; endBefore := None; filters := filters options; limit := None;
     sorts := None; startAfter := None; startAt := None |}.

Definition onlyPaging (options : FetchOptions) : FetchOptions :=
  {| endAt := endAt options; endBefore := endBefore options; filters := None;
     limit := None; sorts := sorts options;
     startAfter := startAfter options; startAt := startAt options |}.

Definition onlyLimit (options : FetchOptions) : FetchOptions :=
  {| endAt := None; endBefore := None; filters := None; limit := limit options;
     sorts := None; startAfter := None; startAt := None |}.

(** The calls that change the store, and those that can create a document. *)
Definition writes (c : ClientCall) : bool :=
  match c with
  | Collection_add _ _ | Ref_set _ _ | Ref_update _ _ | Ref_delete _ => true
  | Collection_doc _ _ | Ref_get _ => false
  end.

Definition creates (c : ClientCall) : bool :=
  match c with
  | Collection_add _ _ | Ref_set _ _ => true
  | _ => false
  end.

(** The id holds a ['/']: [doc(id)] then addresses a nested path and not
    a document of the collection itself. *)
Fixpoint hasSlash (s : string) : bool :=
  match s with
  | EmptyString => false
  | String a s' => if Ascii.eqb a "/"%char then true else hasSlash s'
  end.

(** [{ limit: 2 }] *)
Definition limitTwo : FetchOptions :=
  {| endAt := None; endBefore := None; filters := None;
     limit := Some (number_of_Z 2);
     sorts := None; startAfter := None; startAt := None |}.

(** A query that already carries a filter: [ref.where('done', '==', false)]. *)
Definition notDone : Query :=
  Where (CollectionRef "todos") "done" OpEq (Some (VBool false)).

(** A store that holds a document in each of two collections. *)
Definition twoCollections : Store :=
  {| documents :=
       <[("todos", "abc123") := toData testEntity]>
         (<[("users", "abc123") := toData testFragment]> ∅);
     generated := 0; fault := None |}.

(** * Properties *)

(** ** The accumulating query as a list of chained calls *)

Lemma chain_snoc ref cs c : chain ref (cs ++ [c]) = chainClause (chain ref cs) c.
Proof. unfold chain. now rewrite fold_left_app. Qed.

Lemma chain_app ref cs cs' : chain ref (cs ++ cs') = chain (chain ref cs) cs'.
Proof. unfold chain. now rewrite fold_left_app. Qed.

Lemma clauses_chainClause q c : clauses (chainClause q c) = clauses q ++ [c].
Proof. now destruct c. Qed.

Lemma clauses_chain ref cs : clauses (chain ref cs) = clauses ref ++ cs.
Proof.
  revert ref. induction cs as [|c cs IH]; intros ref; simpl.
  - now rewrite app_nil_r.
  - change (chain ref (c :: cs)) with (chain (chainClause ref c) cs).
    rewrite IH, clauses_chainClause, <- app_assoc. reflexivity.
Qed.

Lemma collectionOf_chain ref cs : collectionOf (chain ref cs) = collectionOf ref.
Proof.
  revert ref. induction cs as [|c cs IH]; intros ref; [reflexivity|].
  change (chain ref (c :: cs)) with (chain (chainClause ref c) cs).
  rewrite IH. now destruct c.
Qed.

Lemma orElse_chained ref cs : orElse (chained ref cs) ref = chain ref cs.
Proof. now destruct cs. Qed.

Lemma chained_snoc ref cs c :
  Some (chainClause (orElse (chained ref cs) ref) c) = chained ref (cs ++ [c]).
Proof.
  rewrite orElse_chained, <- chain_snoc.
  destruct cs; reflexivity.
Qed.

Lemma chained_nonempty ref cs : cs <> [] -> chained ref cs = Some (chain ref cs).
Proof. destruct cs; [intros H; now destruct H | reflexivity]. Qed.

(** A loop that chains one call per element of an array. *)
Lemma fold_chained {A : Type} (f : A -> Clause) ref (l : list A) cs :
  fold_left (fun query x => Some (chainClause (orElse query ref) (f x))) l (chained ref cs)
  = chained ref (cs ++ map f l).
Proof.
  revert cs. induction l as [|x l IH]; intros cs; simpl.
  - now rewrite app_nil_r.
  - rewrite chained_snoc, IH, <- app_assoc. reflexivity.
Qed.

Lemma applyFilters_chained options ref cs :
  FirestoreRepo.applyFilters options (chained ref cs) ref
  = chained ref (cs ++ expectedFilters options).
Proof.
  unfold FirestoreRepo.applyFilters, expectedFilters.
  destruct (filters options) as [fs|]; [|now rewrite app_nil_r].
  destruct fs as [|f fs]; [now rewrite app_nil_r|].
  cbn [length Nat.eqb negb].
  apply (fold_chained whereOf ref (f :: fs) cs).
Qed.

Lemma applyCursor_chained (c : any) method m (C : Value -> Clause) ref cs :
  cs <> [] ->
  (forall q v, m q v = chainClause q (C v)) ->
  FirestoreRepo.applyCursor c method m (chained ref cs)
  = Returns (chained ref (cs ++ option_list (C <$> c))).
Proof.
  intros Hne Hm. destruct c as [v|]; simpl.
  - rewrite (chained_nonempty _ _ Hne). simpl. rewrite Hm, <- chain_snoc.
    f_equal. symmetry. apply chained_nonempty. now destruct cs.
  - now rewrite app_nil_r.
Qed.

Lemma applySorts_chained options ref cs :
  FirestoreRepo.applySorts options (chained ref cs) ref
  = Returns (chained ref (cs ++ expectedPaging options)).
Proof.
  unfold FirestoreRepo.applySorts, expectedPaging, hasSorts, expectedSorts, expectedCursors.
  destruct (sorts options) as [ss|]; [|now rewrite app_nil_r].
  destruct ss as [|s ss]; [now rewrite app_nil_r|].
  cbn [length Nat.eqb negb].
  match goal with
  | |- context [fold_left ?f ?l ?a] =>
      replace (fold_left f l a) with (chained ref (cs ++ map orderByOf (s :: ss)))
        by (symmetry; apply (fold_chained orderByOf ref (s :: ss) cs))
  end.
  rewrite (app_assoc cs (map orderByOf (s :: ss))).
  assert (Hne : cs ++ map orderByOf (s :: ss) <> []) by (now destruct cs).
  revert Hne. generalize (cs ++ map orderByOf (s :: ss)). intros l Hne.
  rewrite (applyCursor_chained _ _ _ CStartAt) by auto. cbn [mbind JsResult_bind].
  rewrite (applyCursor_chained _ _ _ CStartAfter) by (auto; now destruct l).
  cbn [mbind JsResult_bind].
  rewrite (applyCursor_chained _ _ _ CEndAt) by (auto; now destruct l).
  cbn [mbind JsResult_bind].
  rewrite (applyCursor_chained _ _ _ CEndBefore) by (auto; now destruct l).
  cbn [mbind JsResult_bind mret JsResult_ret].
  rewrite <- !app_assoc. reflexivity.
Qed.

Lemma applyLimit_chained options ref cs :
  FirestoreRepo.applyLimit options (chained ref cs) ref
  = chained ref (cs ++ expectedLimit options).
Proof.
  unfold FirestoreRepo.applyLimit, expectedLimit.
  destruct (limit options) as [n|]; [|now rewrite app_nil_r].
  destruct (number_truthy n); [|now rewrite app_nil_r].
  apply (chained_snoc ref cs (CLimit n)).
Qed.

(** When the client accepts every call, the code builds the query the
    design describes; no cursor call is made on a [null] query. *)
Lemma applyOptions_chained options ref :
  FirestoreRepo.applyOptions options ref
  = Returns (chained ref (expectedClauses options)).
Proof.
  unfold FirestoreRepo.applyOptions, expectedClauses. cbv zeta.
  pose proof (applyFilters_chained options ref []) as HF.
  cbn [chained app] in HF. rewrite HF.
  rewrite applySorts_chained. cbn [mbind JsResult_bind mret JsResult_ret].
  rewrite applyLimit_chained. rewrite <- app_assoc. reflexivity.
Qed.

Lemma queryFn_chain options ref :
  FirestoreRepo.queryFn options ref = Returns (chain ref (expectedClauses options)).
Proof.
  unfold FirestoreRepo.queryFn. rewrite applyOptions_chained.
  cbn [mbind JsResult_bind mret JsResult_ret]. now rewrite orElse_chained.
Qed.

(** ** The translation on the options of the test suite *)

Example applyOptions_empty :
  FirestoreRepo.applyOptions noOptions todosRef = Returns None.
Proof. reflexivity. Qed.

Example applyOptions_filter :
  FirestoreRepo.applyOptions
    {| endAt := None; endBefore := None; filters := Some [nameIsFiltered];
       limit := None; sorts := None; startAfter := None; startAt := None |} todosRef
  = Returns (Some (Where todosRef "name" OpEq (Some (VStr "Filtered")))).
Proof. reflexivity. Qed.

Example applyOptions_sorted_startAfter :
  FirestoreRepo.applyOptions
    {| endAt := None; endBefore := None; filters := None; limit := None;
       sorts := Some [byTimeStamp];
       startAfter := Some (VNum (number_of_Z 12345)); startAt := None |} todosRef
  = Returns (Some (StartAfter (OrderBy todosRef "timeStamp" Asc)
                              (VNum (number_of_Z 12345)))).
Proof. reflexivity. Qed.

Example applyOptions_all :
  FirestoreRepo.applyOptions sortedAllCursors todosRef
  = Returns (Some (Limit
       (EndBefore
          (EndAt
             (StartAfter
                (StartAt (OrderBy todosRef "timeStamp" Asc) (VNum (number_of_Z 1)))
                (VNum (number_of_Z 2)))
             (VNum (number_of_Z 3)))
          (VNum (number_of_Z 4)))
       (number_of_Z 2))).
Proof. reflexivity. Qed.

Example fetch_limit_two :
  FirestoreRepo.fetch todos
    (Some {| endAt := None; endBefore := None; filters := None;
             limit := Some (number_of_Z 2);
             sorts := None; startAfter := None; startAt := None |})
  = Returns (Collection_valueChanges (Limit todosRef (number_of_Z 2)) "id").
Proof. reflexivity. Qed.

Example add_then_exists :
  exists st,
    run storeClient (FirestoreRepo.add todos testEntity (Some "abc123")) emptyStore
    = Ok (withId testEntity "abc123", st)
    /\ run storeClient (FirestoreRepo.exists_ todos "abc123") st = Ok (true, st)
    /\ run storeClient (FirestoreRepo.exists_ todos "1234567") st = Ok (false, st).
Proof. eexists. repeat split. Qed.

Example delete_then_exists :
  exists st,
    run storeClient (FirestoreRepo.delete todos "abc123") oneDocStore = Ok (tt, st)
    /\ run storeClient (FirestoreRepo.exists_ todos "abc123") st = Ok (false, st).
Proof. eexists. split; [reflexivity|]. vm_compute. reflexivity. Qed.

(** ** What the chained calls contain *)

Lemma expectedFilters_where options : forallb isWhere (expectedFilters options) = true.
Proof.
  unfold expectedFilters. destruct (filters options) as [fs|]; [|reflexivity].
  induction fs as [|f fs IH]; [reflexivity|exact IH].
Qed.

Lemma expectedSorts_orderBy options c :
  In c (expectedSorts options) -> exists f d, c = COrderBy f d.
Proof.
  unfold expectedSorts. destruct (sorts options) as [ss|]; [|intros []].
  rewrite in_map_iff. intros (s & <- & _). unfold orderByOf. eauto.
Qed.

Lemma expectedCursors_cursor options c :
  In c (expectedCursors options) -> isCursor c = true.
Proof.
  unfold expectedCursors.
  destruct (startAt options), (startAfter options), (endAt options), (endBefore options);
    simpl; intuition (subst; reflexivity).
Qed.

Lemma expectedLimit_limit options c :
  In c (expectedLimit options) ->
  exists n, c = CLimit n /\ limit options = Some n /\ number_truthy n = true.
Proof.
  unfold expectedLimit. destruct (limit options) as [n|]; [|intros []].
  destruct (number_truthy n) eqn:Hn; [|intros []].
  intros [<-|[]]. eauto.
Qed.

Lemma expectedPaging_no_sorts options :
  hasSorts options = false -> expectedPaging options = [].
Proof. unfold expectedPaging. now intros ->. Qed.

Lemma hasSorts_false options :
  sorts options = None \/ sorts options = Some [] -> hasSorts options = false.
Proof. unfold hasSorts. now intros [-> | ->]. Qed.

(** C1: when no sort specification is present (sorts absent or an empty
    array), [applyOptions] attaches none of the cursors [startAt],
    [startAfter], [endAt], [endBefore], whatever their values: the query
    built is the one built from any other cursor values, and it contains no
    cursor call. *)
Theorem cursors_ignored_without_sorts options path (a b c d : any) :
  sorts options = None \/ sorts options = Some [] ->
  FirestoreRepo.applyOptions (withCursors options a b c d) (CollectionRef path)
  = FirestoreRepo.applyOptions options (CollectionRef path)
  /\ exists query,
       FirestoreRepo.applyOptions options (CollectionRef path) = Returns query
       /\ forall cl, In cl (clauses (orElse query (CollectionRef path))) -> isCursor cl = false.
Proof.
  intros Hs. pose proof (hasSorts_false _ Hs) as Hno.
  assert (Hno' : hasSorts (withCursors options a b c d) = false) by exact Hno.
  rewrite !applyOptions_chained. unfold expectedClauses.
  rewrite (expectedPaging_no_sorts _ Hno), (expectedPaging_no_sorts _ Hno').
  split; [reflexivity|].
  eexists; split; [reflexivity|].
  intros cl. rewrite orElse_chained, clauses_chain. simpl.
  rewrite in_app_iff. intros [Hin|Hin].
  - pose proof (expectedFilters_where options) as Hw.
    rewrite forallb_forall in Hw. specialize (Hw _ Hin). now destruct cl.
  - destruct (expectedLimit_limit _ _ Hin) as (n & -> & _). reflexivity.
Qed.

Lemma cursors_ignored_without_sorts_witness :
  (sorts cursorOnly = None \/ sorts cursorOnly = Some [])
  /\ FirestoreRepo.applyOptions cursorOnly todosRef = Returns None
  /\ FirestoreRepo.applyOptions
       (withCursors cursorOnly (Some VNull) None (Some (VBool true)) None) todosRef
     = FirestoreRepo.applyOptions cursorOnly todosRef.
Proof.
  split; [left; reflexivity|].
  split; [reflexivity|].
  apply (cursors_ignored_without_sorts cursorOnly "todos").
  left; reflexivity.
Defined.

(** ** The limit *)

Lemma no_limit_before_limit options c :
  In c (expectedFilters options ++ expectedPaging options) -> isLimit c = false.
Proof.
  rewrite in_app_iff. intros [Hin|Hin].
  - pose proof (expectedFilters_where options) as Hw.
    rewrite forallb_forall in Hw. specialize (Hw _ Hin). now destruct c.
  - unfold expectedPaging in Hin. destruct (hasSorts options); [|destruct Hin].
    apply in_app_iff in Hin as [Hin|Hin].
    + destruct (expectedSorts_orderBy _ _ Hin) as (f & d & ->). reflexivity.
    + apply expectedCursors_cursor in Hin. now destruct c.
Qed.

(** ** No override, and the base collection *)

Lemma filter_none {A : Type} (f : A -> bool) (l : list A) :
  (forall x, In x l -> f x = false) -> List.filter f l = [].
Proof.
  induction l as [|x l IH]; intros H; [reflexivity|]. simpl.
  rewrite (H x (or_introl eq_refl)). apply IH. intros y Hy. apply H. now right.
Qed.

Lemma filter_all {A : Type} (f : A -> bool) (l : list A) :
  (forall x, In x l -> f x = true) -> List.filter f l = l.
Proof.
  induction l as [|x l IH]; intros H; [reflexivity|]. simpl.
  rewrite (H x (or_introl eq_refl)). f_equal. apply IH. intros y Hy. apply H. now right.
Qed.

Lemma fetch_chain this options :
  FirestoreRepo.fetch this (Some options)
  = Returns (Collection_valueChanges
               (chain (CollectionRef (FirestoreRepo.collectionPath this))
                      (expectedClauses options)) "id").
Proof. unfold FirestoreRepo.fetch. cbn [default]. now rewrite queryFn_chain. Qed.

Lemma fetchSnapshots_chain this options events :
  FirestoreRepo.fetchSnapshots this (Some options) events
  = Returns (Collection_snapshotChanges
               (chain (CollectionRef (FirestoreRepo.collectionPath this))
                      (expectedClauses options)) events).
Proof. unfold FirestoreRepo.fetchSnapshots. cbn [default]. now rewrite queryFn_chain. Qed.

Lemma expectedClauses_nil options :
  (filters options = None \/ filters options = Some []) ->
  (sorts options = None \/ sorts options = Some []) ->
  (limit options = None \/ exists n, limit options = Some n /\ number_truthy n = false) ->
  expectedClauses options = [].
Proof.
  intros Hf Hs Hl. unfold expectedClauses.
  rewrite (expectedPaging_no_sorts _ (hasSorts_false _ Hs)).
  unfold expectedFilters, expectedLimit.
  destruct Hf as [-> | ->]; destruct Hl as [-> | (n & -> & ->)]; reflexivity.
Qed.

(** C4: when no filters, no sorts and no limit were supplied,
    [applyOptions] returns [null], and [fetch] and [fetchSnapshots] (also
    when called without options) subscribe to the base collection reference
    itself: a query without any chained call, which yields every document
    of the collection as the store holds them. *)
Theorem no_options_no_override
    (matches : string -> WhereFilterOp -> any -> DocumentData -> bool)
    (arrange : list Clause -> list DocumentData -> list DocumentData)
    this options events docs :
  filters options = None -> sorts options = None -> limit options = None ->
  let base := CollectionRef (FirestoreRepo.collectionPath this) in
  FirestoreRepo.applyOptions options base = Returns None
  /\ FirestoreRepo.fetch this (Some options) = Returns (Collection_valueChanges base "id")
  /\ FirestoreRepo.fetch this None = Returns (Collection_valueChanges base "id")
  /\ FirestoreRepo.fetchSnapshots this (Some options) events
     = Returns (Collection_snapshotChanges base events)
  /\ FirestoreRepo.fetchSnapshots this None events
     = Returns (Collection_snapshotChanges base events)
  /\ clauses base = []
  /\ results matches arrange base docs = docs.
Proof.
  intros Hf Hs Hl base.
  assert (Hnil : expectedClauses options = [])
    by (apply expectedClauses_nil; auto).
  rewrite applyOptions_chained, fetch_chain, fetchSnapshots_chain, Hnil.
  repeat split.
  unfold results, arrangement, matching. simpl.
  induction docs as [|d docs IH]; [reflexivity|]. simpl. now rewrite IH.
Qed.

Lemma no_options_no_override_witness :
  filters cursorOnly = None /\ sorts cursorOnly = None /\ limit cursorOnly = None
  /\ FirestoreRepo.applyOptions cursorOnly todosRef = Returns None
  /\ FirestoreRepo.fetch todos (Some cursorOnly)
     = Returns (Collection_valueChanges todosRef "id").
Proof.
  split; [reflexivity|]. split; [reflexivity|]. split; [reflexivity|].
  destruct (no_options_no_override (fun _ _ _ _ => true) (fun _ docs => docs)
              todos cursorOnly None [] eq_refl eq_refl eq_refl)
    as (Hnull & Hfetch & _).
  split; [exact Hnull | exact Hfetch].
Defined.

(** C10: an empty filters array, an empty sorts array and a limit of zero
    count as absent: for every combination of these with absent fields,
    [applyOptions] returns [null], as it does for the empty options object,
    and [fetch] and [fetchSnapshots] use the base collection reference
    unmodified. *)
Theorem empty_arrays_zero_limit_as_absent this options events :
  (filters options = None \/ filters options = Some []) ->
  (sorts options = None \/ sorts options = Some []) ->
  (limit options = None \/ limit options = Some (number_of_Z 0)) ->
  let base := CollectionRef (FirestoreRepo.collectionPath this) in
  FirestoreRepo.applyOptions options base = Returns None
  /\ FirestoreRepo.applyOptions options base = FirestoreRepo.applyOptions noOptions base
  /\ FirestoreRepo.fetch this (Some options) = Returns (Collection_valueChanges base "id")
  /\ FirestoreRepo.fetchSnapshots this (Some options) events
     = Returns (Collection_snapshotChanges base events).
Proof.
  intros Hf Hs Hl base.
  assert (Hnil : expectedClauses options = []).
  { apply expectedClauses_nil; auto.
    destruct Hl as [Hl|Hl]; [now left|right]. eexists; split; [exact Hl|reflexivity]. }
  rewrite applyOptions_chained, fetch_chain, fetchSnapshots_chain, Hnil.
  repeat split.
Qed.

Lemma empty_arrays_zero_limit_as_absent_witness :
  filters emptyArraysZeroLimit = Some []
  /\ sorts emptyArraysZeroLimit = Some []
  /\ limit emptyArraysZeroLimit = Some (number_of_Z 0)
  /\ FirestoreRepo.applyOptions emptyArraysZeroLimit todosRef = Returns None
  /\ FirestoreRepo.applyOptions emptyArraysZeroLimit todosRef
     = FirestoreRepo.applyOptions noOptions todosRef.
Proof.
  split; [reflexivity|]. split; [reflexivity|]. split; [reflexivity|].
  destruct (empty_arrays_zero_limit_as_absent todos emptyArraysZeroLimit None
              (or_intror eq_refl) (or_intror eq_refl) (or_intror eq_refl))
    as (Hnull & Hsame & _).
  split; [exact Hnull | exact Hsame].
Defined.

(** ** Cursors after the sorts *)

(** C6: when at least one sort is applied, the cursors that are defined
    are chained after the sorts in the sequence [startAt], [startAfter],
    [endAt], [endBefore]; each one is attached exactly when its value is
    defined, and all four are attached when all four are supplied: no
    combination is rejected. *)
Theorem cursors_in_fixed_sequence options path s ss :
  sorts options = Some (s :: ss) ->
  exists q,
    FirestoreRepo.applyOptions options (CollectionRef path) = Returns (Some q)
    /\ clauses q
       = map whereOf (default [] (filters options))
         ++ map orderByOf (s :: ss)
         ++ (option_list (CStartAt <$> startAt options)
             ++ option_list (CStartAfter <$> startAfter options)
             ++ option_list (CEndAt <$> endAt options)
             ++ option_list (CEndBefore <$> endBefore options))
         ++ expectedLimit options
    /\ List.filter isCursor (clauses q)
       = option_list (CStartAt <$> startAt options)
         ++ option_list (CStartAfter <$> startAfter options)
         ++ option_list (CEndAt <$> endAt options)
         ++ option_list (CEndBefore <$> endBefore options)
    /\ (forall a b c d,
          startAt options = Some a -> startAfter options = Some b ->
          endAt options = Some c -> endBefore options = Some d ->
          List.filter isCursor (clauses q)
          = [CStartAt a; CStartAfter b; CEndAt c; CEndBefore d]).
Proof.
  intros Hs.
  assert (Hcl : expectedClauses options
                = map whereOf (default [] (filters options))
                  ++ map orderByOf (s :: ss)
                  ++ expectedCursors options ++ expectedLimit options).
  { unfold expectedClauses, expectedPaging, hasSorts, expectedSorts, expectedFilters.
    rewrite Hs. rewrite <- app_assoc. now destruct (filters options). }
  assert (Hcur : List.filter isCursor (expectedClauses options) = expectedCursors options).
  { rewrite Hcl, !List.filter_app.
    rewrite (filter_none isCursor (map whereOf _)).
    2:{ intros c Hc. apply in_map_iff in Hc as (f & <- & _). reflexivity. }
    rewrite (filter_none isCursor (map orderByOf _)).
    2:{ intros c Hc. apply in_map_iff in Hc as (f & <- & _). reflexivity. }
    rewrite (filter_all isCursor (expectedCursors options))
      by apply expectedCursors_cursor.
    rewrite (filter_none isCursor (expectedLimit options)).
    2:{ intros c Hc. destruct (expectedLimit_limit _ _ Hc) as (n & -> & _). reflexivity. }
    simpl. now rewrite app_nil_r. }
  exists (chain (CollectionRef path) (expectedClauses options)).
  rewrite applyOptions_chained, clauses_chain. cbn [clauses app].
  split; [|split; [exact Hcl|split; [exact Hcur|]]].
  - f_equal. apply chained_nonempty. rewrite Hcl. simpl.
    intros H. apply app_eq_nil in H as [_ H]. discriminate H.
  - intros a b c d Ha Hb Hc Hd. rewrite Hcur. unfold expectedCursors.
    now rewrite Ha, Hb, Hc, Hd.
Qed.

Lemma cursors_in_fixed_sequence_witness :
  sorts sortedAllCursors = Some [byTimeStamp]
  /\ exists q,
       FirestoreRepo.applyOptions sortedAllCursors todosRef = Returns (Some q)
       /\ List.filter isCursor (clauses q)
          = [CStartAt (VNum (number_of_Z 1)); CStartAfter (VNum (number_of_Z 2));
             CEndAt (VNum (number_of_Z 3)); CEndBefore (VNum (number_of_Z 4))].
Proof.
  split; [reflexivity|].
  destruct (cursors_in_fixed_sequence sortedAllCursors "todos" byTimeStamp [] eq_refl)
    as (q & Hq & _ & _ & Hall).
  exists q. split; [exact Hq|].
  apply Hall; reflexivity.
Defined.

(** ** Filters *)

Lemma rest_not_where options c :
  In c (expectedPaging options ++ expectedLimit options) -> isWhere c = false.
Proof.
  rewrite in_app_iff. intros [Hin|Hin].
  - unfold expectedPaging in Hin. destruct (hasSorts options); [|destruct Hin].
    apply in_app_iff in Hin as [Hin|Hin].
    + destruct (expectedSorts_orderBy _ _ Hin) as (f & d & ->). reflexivity.
    + apply expectedCursors_cursor in Hin. now destruct c.
  - destruct (expectedLimit_limit _ _ Hin) as (n & -> & _). reflexivity.
Qed.

Lemma forallb_Permutation {A : Type} (f : A -> bool) (l l' : list A) :
  Permutation l l' -> forallb f l = forallb f l'.
Proof.
  induction 1 as [|x l l' _ IH|x y l|l l' l'' _ IH1 _ IH2]; simpl.
  - reflexivity.
  - now rewrite IH.
  - now destruct (f x), (f y).
  - now rewrite IH1.
Qed.

Section Matching.

Variable matches : string -> WhereFilterOp -> any -> DocumentData -> bool.
Variable arrange : list Clause -> list DocumentData -> list DocumentData.

Lemma satisfies_built options fs path d :
  filters options = Some fs ->
  forallb (fun c => satisfies matches c d)
          (clauses (chain (CollectionRef path) (expectedClauses options)))
  = forallb (passes matches d) fs.
Proof.
  intros Hf. rewrite clauses_chain. cbn [clauses app].
  unfold expectedClauses. rewrite forallb_app.
  replace (forallb _ (expectedPaging options ++ expectedLimit options)) with true.
  - rewrite andb_true_r. unfold expectedFilters. rewrite Hf. clear Hf.
    induction fs as [|f fs IH]; [reflexivity|]. simpl. now rewrite IH.
  - symmetry. apply forallb_forall. intros c Hc.
    apply rest_not_where in Hc. now destruct c.
Qed.

Lemma arrangement_built options path :
  arrangement (chain (CollectionRef path) (expectedClauses options))
  = expectedPaging options ++ expectedLimit options.
Proof.
  unfold arrangement. rewrite clauses_chain. cbn [clauses app].
  unfold expectedClauses. rewrite List.filter_app.
  rewrite filter_none, filter_all; [reflexivity| |].
  - intros c Hc. now rewrite (rest_not_where _ _ Hc).
  - intros c Hc. pose proof (expectedFilters_where options) as Hw.
    rewrite forallb_forall in Hw. now rewrite (Hw _ Hc).
Qed.

Lemma wheres_built options fs path :
  filters options = Some fs ->
  List.filter isWhere (clauses (chain (CollectionRef path) (expectedClauses options)))
  = map whereOf fs.
Proof.
  intros Hf. rewrite clauses_chain. cbn [clauses app].
  unfold expectedClauses. rewrite List.filter_app.
  rewrite filter_all, filter_none.
  - unfold expectedFilters. rewrite Hf. apply app_nil_r.
  - apply rest_not_where.
  - intros c Hc. pose proof (expectedFilters_where options) as Hw.
    rewrite forallb_forall in Hw. exact (Hw _ Hc).
Qed.

(** C5: the query built from a filter array chains one [where] per filter,
    in array order; a document matches it exactly when it passes every
    filter of the array (logical AND); and for any permutation of the array
    the matching result set, and what the query yields, are the same. *)
Theorem filters_conjunctive_any_order options fs fs' path docs :
  filters options = Some fs ->
  Permutation fs fs' ->
  exists q q',
    FirestoreRepo.queryFn options (CollectionRef path) = Returns q
    /\ FirestoreRepo.queryFn (withFilters options fs') (CollectionRef path) = Returns q'
    /\ List.filter isWhere (clauses q) = map whereOf fs
    /\ List.filter isWhere (clauses q') = map whereOf fs'
    /\ (forall d, In d (matching matches q docs)
                  <-> In d docs /\ forall f, In f fs -> passes matches d f = true)
    /\ matching matches q' docs = matching matches q docs
    /\ results matches arrange q' docs = results matches arrange q docs.
Proof.
  intros Hf Hperm.
  assert (Hf' : filters (withFilters options fs') = Some fs') by reflexivity.
  exists (chain (CollectionRef path) (expectedClauses options)),
         (chain (CollectionRef path) (expectedClauses (withFilters options fs'))).
  rewrite !queryFn_chain.
  assert (Hm : matching matches
                 (chain (CollectionRef path) (expectedClauses (withFilters options fs'))) docs
               = matching matches
                   (chain (CollectionRef path) (expectedClauses options)) docs).
  { unfold matching. apply List.filter_ext. intros d.
    rewrite (satisfies_built _ _ _ _ Hf), (satisfies_built _ _ _ _ Hf').
    symmetry. now apply forallb_Permutation. }
  split; [reflexivity|]. split; [reflexivity|].
  split; [now apply wheres_built|]. split; [now apply wheres_built|].
  split; [|split; [exact Hm|]].
  - intros d. unfold matching. rewrite filter_In, (satisfies_built _ _ _ _ Hf).
    now rewrite forallb_forall.
  - unfold results. rewrite !arrangement_built, Hm. reflexivity.
Qed.

End Matching.

Lemma filters_conjunctive_any_order_witness :
  filters twoFilters = Some [nameIsFiltered; timeStampIs12345]
  /\ Permutation [nameIsFiltered; timeStampIs12345] [timeStampIs12345; nameIsFiltered]
  /\ exists q q',
       FirestoreRepo.queryFn twoFilters todosRef = Returns q
       /\ FirestoreRepo.queryFn
            (withFilters twoFilters [timeStampIs12345; nameIsFiltered]) todosRef
          = Returns q'
       /\ matching (fun _ _ _ _ => true) q' [∅] = matching (fun _ _ _ _ => true) q [∅].
Proof.
  split; [reflexivity|]. split; [apply perm_swap|].
  destruct (filters_conjunctive_any_order (fun _ _ _ _ => true) (fun _ docs => docs)
              twoFilters [nameIsFiltered; timeStampIs12345]
              [timeStampIs12345; nameIsFiltered] "todos" [∅]
              eq_refl (perm_swap _ _ _))
    as (q & q' & Hq & Hq' & _ & _ & _ & Hm & _).
  exists q, q'. split; [exact Hq|]. split; [exact Hq'|exact Hm].
Defined.

(** ** The one-shot operations *)

Lemma run_await {S A : Type} (cl : Client S) c (k : Response c -> Program A) s :
  run cl (Await c k) s
  = match handle cl c s with
    | Ok (x, s') => run cl (k x) s'
    | Err e => Err e
    end.
Proof. reflexivity. Qed.

Lemma run_invoke {S A : Type} (cl : Client S) c (k : Response c -> Program A) s :
  run cl (Invoke c k) s
  = match handle cl c s with
    | Ok (x, s') => run cl (k x) s'
    | Err e => Err e
    end.
Proof. reflexivity. Qed.

Lemma trace_await {S A : Type} (cl : Client S) c (k : Response c -> Program A) s :
  trace cl (Await c k) s
  = c :: match handle cl c s with
         | Ok (x, s') => trace cl (k x) s'
         | Err _ => []
         end.
Proof. reflexivity. Qed.

Lemma trace_invoke {S A : Type} (cl : Client S) c (k : Response c -> Program A) s :
  trace cl (Invoke c k) s
  = c :: match handle cl c s with
         | Ok (x, s') => trace cl (k x) s'
         | Err _ => []
         end.
Proof. reflexivity. Qed.

(** For the value, the store and the calls it makes no difference whether
    a body is that of an [async] function. *)
Lemma run_async {S A : Type} (cl : Client S) (p : Program A) s :
  run cl (async p) s = run cl p s.
Proof.
  revert s. induction p as [a|e|e|c k IH]; intros s; try reflexivity.
  simpl. destruct (handle cl c s) as [[x s']|e]; apply IH.
Qed.

Lemma trace_async {S A : Type} (cl : Client S) (p : Program A) s :
  trace cl (async p) s = trace cl p s.
Proof.
  revert s. induction p as [a|e|e|c k IH]; intros s; try reflexivity.
  simpl. f_equal. destruct (handle cl c s) as [[x s']|e]; apply IH.
Qed.

Lemma autoId_nonempty n : autoId n <> "".
Proof. unfold autoId. simpl. discriminate. Qed.

Lemma add_falsy_id this item id :
  string_truthy id = false ->
  FirestoreRepo.add this item id
  = async
      (Await (Collection_add (FirestoreRepo.collectionPath this) (toData item))
         (fun docRef => Resolve (withId item (DocumentReference.id docRef)))).
Proof. destruct id as [[|a id]|]; [reflexivity|discriminate|reflexivity]. Qed.

Lemma add_truthy_id this item id :
  string_truthy (Some id) = true ->
  FirestoreRepo.add this item (Some id)
  = async
      (Invoke (Collection_doc (FirestoreRepo.collectionPath this) (Some id))
         (fun docRef =>
            Await (Ref_set docRef (toData item))
              (fun _ => Resolve (withId item (DocumentReference.id docRef))))).
Proof. destruct id as [|a id]; [discriminate|reflexivity]. Qed.

Lemma string_truthy_nonempty id : id <> "" -> string_truthy (Some id) = true.
Proof. destruct id; [intros H; now destruct H|reflexivity]. Qed.

(** ** Update *)

Lemma store_update_at (st : Store) docRef data old :
  fault st = None ->
  documents st !! keyOf docRef = Some old ->
  handle storeClient (Ref_update docRef data) st
  = Ok (tt, withDocuments st (<[keyOf docRef := data ∪ old]> (documents st))).
Proof. intros Hf Hold. cbn. unfold reach. now rewrite Hf, Hold. Qed.

Lemma store_update_missing (st : Store) docRef data :
  fault st = None ->
  documents st !! keyOf docRef = None ->
  handle storeClient (Ref_update docRef data) st = Err NotFound.
Proof. intros Hf Hnone. cbn. unfold reach. now rewrite Hf, Hnone. Qed.

Lemma store_get_at (st : Store) docRef :
  fault st = None ->
  handle storeClient (Ref_get docRef) st
  = Ok (DocumentSnapshot.mk docRef (documents st !! keyOf docRef), st).
Proof. intros Hf. cbn. unfold reach. now rewrite Hf. Qed.

(** C7: on the reference client, [update] of a partial item that carries
    the id of a stored document merges the fields: every property of the
    partial item is written, every property of the stored document that the
    partial item does not have is unchanged, the other documents are
    untouched, and a point read afterwards yields the merged document. *)
Theorem update_merges_fields this item id (old : DocumentData) (st : Store) :
  let path := FirestoreRepo.collectionPath this in
  FirestoreEntity.id item = Some id ->
  fault st = None ->
  documents st !! (path, id) = Some old ->
  exists st' merged,
    run storeClient (FirestoreRepo.update this item) st = Ok (tt, st')
    /\ trace storeClient (FirestoreRepo.update this item) st
       = [Collection_doc path (Some id);
          Ref_update (DocumentReference.mk path id) (toData item)]
    /\ documents st' !! (path, id) = Some merged
    /\ (forall f v, toData item !! f = Some v -> merged !! f = Some v)
    /\ (forall f, toData item !! f = None -> merged !! f = old !! f)
    /\ (forall k, k <> (path, id) -> documents st' !! k = documents st !! k)
    /\ handle storeClient (Ref_get (DocumentReference.mk path id)) st'
       = Ok (DocumentSnapshot.mk (DocumentReference.mk path id) (Some merged), st')
    /\ run storeClient (FirestoreRepo.exists_ this id) st' = Ok (true, st').
Proof.
  intros path Hid Hfault Hold.
  set (st' := withDocuments st (<[(path, id) := toData item ∪ old]> (documents st))).
  exists st', (toData item ∪ old).
  assert (Hfault' : fault st' = None) by exact Hfault.
  assert (Hread : documents st' !! (path, id) = Some (toData item ∪ old))
    by apply lookup_insert_eq.
  assert (Hget : handle storeClient (Ref_get (DocumentReference.mk path id)) st'
                 = Ok (DocumentSnapshot.mk (DocumentReference.mk path id)
                         (Some (toData item ∪ old)), st')).
  { rewrite <- Hread. exact (store_get_at st' (DocumentReference.mk path id) Hfault'). }
  unfold FirestoreRepo.update, FirestoreRepo.exists_. fold path. rewrite Hid.
  rewrite ?run_async, ?run_invoke, ?run_await, ?trace_async, ?trace_invoke, ?trace_await.
  change (handle storeClient (Collection_doc path (Some id)) st)
    with (Ok (A := DocumentReference.t * Store) (DocumentReference.mk path id, st)).
  cbn iota beta. rewrite ?run_async, ?run_invoke, ?run_await, ?trace_async, ?trace_invoke, ?trace_await.
  rewrite (store_update_at st (DocumentReference.mk path id) (toData item) old Hfault Hold).
  cbn [run trace].
  split; [reflexivity|]. split; [reflexivity|].
  split; [exact Hread|].
  split; [intros f v Hf; now apply lookup_union_Some_l|].
  split; [intros f Hf; now apply lookup_union_r|].
  split; [intros k Hk; unfold st'; cbn; now apply lookup_insert_ne|].
  split; [exact Hget|].
  change (handle storeClient (Collection_doc path (Some id)) st')
    with (Ok (A := DocumentReference.t * Store) (DocumentReference.mk path id, st')).
  cbn iota beta. rewrite ?run_await, Hget. reflexivity.
Qed.

Lemma update_merges_fields_witness :
  FirestoreEntity.id testFragment = Some "abc123"
  /\ fault oneDocStore = None
  /\ documents oneDocStore !! ("todos", "abc123") = Some (toData testEntity)
  /\ exists st' merged,
       run storeClient (FirestoreRepo.update todos testFragment) oneDocStore = Ok (tt, st')
       /\ documents st' !! ("todos", "abc123") = Some merged
       /\ merged !! "name" = Some (VStr "Test Update Changed")
       /\ merged !! "timeStamp" = Some (VNum (number_of_Z 12345)).
Proof.
  split; [reflexivity|]. split; [reflexivity|]. split; [reflexivity|].
  destruct (update_merges_fields todos testFragment "abc123" (toData testEntity)
              oneDocStore eq_refl eq_refl eq_refl)
    as (st' & merged & Hrun & _ & Hdoc & Hnew & Hkept & _).
  exists st', merged. split; [exact Hrun|]. split; [exact Hdoc|]. split.
  - apply Hnew. reflexivity.
  - rewrite Hkept; reflexivity.
Defined.

(** * Further properties of the query translation *)

Lemma chained_None ref cs : chained ref cs = None <-> cs = [].
Proof. destruct cs; simpl; split; intros H; (reflexivity || discriminate H). Qed.

Lemma expectedFilters_nil options :
  expectedFilters options = [] ->
  filters options = None \/ filters options = Some [].
Proof.
  unfold expectedFilters. destruct (filters options) as [[|f fs]|]; auto.
  discriminate.
Qed.

Lemma expectedPaging_nil options :
  expectedPaging options = [] ->
  sorts options = None \/ sorts options = Some [].
Proof.
  unfold expectedPaging, hasSorts, expectedSorts.
  destruct (sorts options) as [[|s ss]|]; auto. discriminate.
Qed.

Lemma expectedLimit_nil options :
  expectedLimit options = [] ->
  limit options = None \/ exists n, limit options = Some n /\ number_truthy n = false.
Proof.
  unfold expectedLimit. destruct (limit options) as [n|]; [|auto].
  destruct (number_truthy n) eqn:Hn; [discriminate|eauto].
Qed.

(** ** The order of the chained calls *)

Lemma same_rank_sorted (l : list Clause) r :
  r < 2 -> (forall c, In c l -> rank c = r) -> StronglySorted before l.
Proof.
  intros Hr. induction l as [|a l IH]; intros H; constructor.
  - apply IH. intros c Hc. apply H. now right.
  - apply Forall_forall. intros b Hb. apply list_elem_of_In in Hb.
    unfold before. rewrite (H a (or_introl eq_refl)), (H b (or_intror Hb)). lia.
Qed.

Lemma expectedFilters_rank options c : In c (expectedFilters options) -> rank c = 0.
Proof.
  intros Hin. pose proof (expectedFilters_where options) as Hw.
  rewrite forallb_forall in Hw. specialize (Hw _ Hin). now destruct c.
Qed.

Lemma expectedSorts_rank options c : In c (expectedSorts options) -> rank c = 1.
Proof. intros Hin. now destruct (expectedSorts_orderBy _ _ Hin) as (f & d & ->). Qed.

Lemma expectedCursors_rank options c :
  In c (expectedCursors options) -> 2 <= rank c <= 5.
Proof. intros Hin. apply expectedCursors_cursor in Hin. destruct c; simpl in *; try discriminate; lia. Qed.

Lemma expectedLimit_rank options c : In c (expectedLimit options) -> rank c = 6.
Proof. intros Hin. now destruct (expectedLimit_limit _ _ Hin) as (n & -> & _). Qed.

Lemma expectedCursors_sorted options : StronglySorted before (expectedCursors options).
Proof.
  unfold expectedCursors.
  destruct (startAt options), (startAfter options), (endAt options), (endBefore options);
    simpl; repeat constructor; simpl; lia.
Qed.

Lemma expectedLimit_sorted options : StronglySorted before (expectedLimit options).
Proof.
  unfold expectedLimit. destruct (limit options) as [n|]; [|constructor].
  destruct (number_truthy n); repeat constructor.
Qed.

Lemma expectedPaging_sorted options : StronglySorted before (expectedPaging options).
Proof.
  unfold expectedPaging. destruct (hasSorts options); [|constructor].
  apply StronglySorted_app_2.
  - intros a b Ha Hb. apply list_elem_of_In in Ha, Hb.
    apply expectedSorts_rank in Ha. apply expectedCursors_rank in Hb.
    unfold before. lia.
  - apply (same_rank_sorted _ 1); [lia|apply expectedSorts_rank].
  - apply expectedCursors_sorted.
Qed.

Lemma expectedPaging_rank options c : In c (expectedPaging options) -> 1 <= rank c <= 5.
Proof.
  unfold expectedPaging. destruct (hasSorts options); [|intros []].
  rewrite in_app_iff. intros [H|H].
  - apply expectedSorts_rank in H. lia.
  - apply expectedCursors_rank in H. lia.
Qed.

(** X2: in every query that [applyOptions] builds on a collection
    reference, the calls come in the order filters, sorts, [startAt],
    [startAfter], [endAt], [endBefore], limit: no call of an earlier stage
    follows one of a later stage, and no cursor and no limit is chained
    twice. *)
Theorem chained_calls_in_stage_order options path :
  exists q,
    FirestoreRepo.queryFn options (CollectionRef path) = Returns q
    /\ StronglySorted before (clauses q).
Proof.
  rewrite queryFn_chain. eexists; split; [reflexivity|].
  rewrite clauses_chain. cbn [clauses app]. unfold expectedClauses.
  apply StronglySorted_app_2; [|apply (same_rank_sorted _ 0);
                                  [lia|apply expectedFilters_rank]|].
  - intros a b Ha Hb. apply list_elem_of_In in Ha, Hb.
    apply expectedFilters_rank in Ha. unfold before. lia.
  - apply StronglySorted_app_2;
      [|apply expectedPaging_sorted|apply expectedLimit_sorted].
    intros a b Ha Hb. apply list_elem_of_In in Ha, Hb.
    apply expectedPaging_rank in Ha. apply expectedLimit_rank in Hb.
    unfold before. lia.
Qed.

(** X3: no filter and no sort specification is dropped, repeated or moved:
    the [where] calls of the built query are the filters in array order and
    its [orderBy] calls are the sorts in array order, so that the first sort
    is the primary key. *)
Theorem filters_and_sorts_in_array_order options path :
  exists q,
    FirestoreRepo.queryFn options (CollectionRef path) = Returns q
    /\ List.filter isWhere (clauses q) = map whereOf (default [] (filters options))
    /\ List.filter isOrderBy (clauses q) = map orderByOf (default [] (sorts options)).
Proof.
  rewrite queryFn_chain. eexists; split; [reflexivity|].
  rewrite clauses_chain. cbn [clauses app]. unfold expectedClauses.
  rewrite !List.filter_app.
  assert (HF : expectedFilters options = map whereOf (default [] (filters options)))
    by (unfold expectedFilters; now destruct (filters options)).
  split.
  - rewrite (filter_all isWhere (expectedFilters options)).
    2:{ intros c Hc. apply expectedFilters_rank in Hc. now destruct c. }
    rewrite (filter_none isWhere (expectedPaging options)).
    2:{ intros c Hc. apply expectedPaging_rank in Hc. destruct c; simpl in *; auto; lia. }
    rewrite (filter_none isWhere (expectedLimit options)).
    2:{ intros c Hc. apply expectedLimit_rank in Hc. now destruct c. }
    now rewrite !app_nil_r.
  - rewrite (filter_none isOrderBy (expectedFilters options)).
    2:{ intros c Hc. apply expectedFilters_rank in Hc. now destruct c. }
    rewrite (filter_none isOrderBy (expectedLimit options)).
    2:{ intros c Hc. apply expectedLimit_rank in Hc. now destruct c. }
    rewrite app_nil_r. cbn [app].
    unfold expectedPaging, hasSorts, expectedSorts.
    destruct (sorts options) as [[|s ss]|]; try reflexivity.
    rewrite List.filter_app.
    rewrite (filter_all isOrderBy (map orderByOf (s :: ss))).
    2:{ intros c Hc. apply in_map_iff in Hc as (x & <- & _). reflexivity. }
    rewrite (filter_none isOrderBy (expectedCursors options)).
    2:{ intros c Hc. apply expectedCursors_rank in Hc. destruct c; simpl in *; auto; lia. }
    now rewrite app_nil_r.
Qed.

(** ** Building in steps, and on a query that already carries calls *)

Lemma expectedClauses_onlyFilters options :
  expectedClauses (onlyFilters options) = expectedFilters options.
Proof.
  unfold expectedClauses, expectedPaging, expectedLimit, expectedFilters. simpl.
  now rewrite app_nil_r.
Qed.

Lemma expectedClauses_onlyPaging options :
  expectedClauses (onlyPaging options) = expectedPaging options.
Proof.
  unfold expectedClauses, expectedLimit, expectedFilters. simpl.
  rewrite app_nil_r. reflexivity.
Qed.

Lemma expectedClauses_onlyLimit options :
  expectedClauses (onlyLimit options) = expectedLimit options.
Proof. reflexivity. Qed.

(** X4: the query built for the whole options object is the one obtained
    in three steps, each taking the query of the step before as its base:
    the filters alone, then the sorts with the cursors, then the limit. *)
Theorem queryFn_in_steps options ref :
  FirestoreRepo.queryFn options ref
  = (afterFilters ← FirestoreRepo.queryFn (onlyFilters options) ref;
     afterPaging ← FirestoreRepo.queryFn (onlyPaging options) afterFilters;
     FirestoreRepo.queryFn (onlyLimit options) afterPaging).
Proof.
  rewrite (queryFn_chain options), (queryFn_chain (onlyFilters options)).
  cbn [mbind JsResult_bind]. rewrite queryFn_chain. cbn [mbind JsResult_bind].
  rewrite queryFn_chain.
  rewrite expectedClauses_onlyFilters, expectedClauses_onlyPaging,
    expectedClauses_onlyLimit.
  unfold expectedClauses. now rewrite !chain_app.
Qed.

(** X5: whatever query is handed in as [ref], the query function only
    extends it: the result reads the same collection, keeps every call
    already chained on [ref] in front of the calls it adds, and is [ref]
    itself when [applyOptions] returns [null]. *)
Theorem queryFn_extends_ref options ref :
  exists q added,
    FirestoreRepo.queryFn options ref = Returns q
    /\ collectionOf q = collectionOf ref
    /\ clauses q = clauses ref ++ added
    /\ (added = [] <-> FirestoreRepo.applyOptions options ref = Returns None)
    /\ (added = [] -> q = ref).
Proof.
  exists (chain ref (expectedClauses options)), (expectedClauses options).
  rewrite queryFn_chain, applyOptions_chained.
  split; [reflexivity|]. split; [apply collectionOf_chain|].
  split; [apply clauses_chain|]. split.
  - rewrite <- chained_None. split; [now intros ->|]. intros H. now injection H.
  - now intros ->.
Qed.

Lemma fold_on_query {A : Type} (f : A -> Clause) ref (l : list A) q :
  fold_left (fun query x => Some (chainClause (orElse query ref) (f x))) l (Some q)
  = Some (chain q (map f l)).
Proof.
  revert q. induction l as [|x l IH]; intros q; [reflexivity|].
  simpl. now rewrite IH.
Qed.

Lemma applyCursor_on_query (c : any) method m (C : Value -> Clause) q :
  (forall q v, m q v = chainClause q (C v)) ->
  FirestoreRepo.applyCursor c method m (Some q)
  = Returns (Some (chain q (option_list (C <$> c)))).
Proof. intros Hm. destruct c as [v|]; simpl; [now rewrite Hm|reflexivity]. Qed.

(** X7: handed a query that is not [null], each of the three private
    steps continues that query: it returns a query, never [null], whose
    calls are those of the incoming query followed by the calls of the step,
    and the result does not depend on the collection reference. *)
Theorem steps_continue_a_query options q ref ref' :
  (exists q',
     FirestoreRepo.applyFilters options (Some q) ref = Some q'
     /\ FirestoreRepo.applyFilters options (Some q) ref' = Some q'
     /\ clauses q' = clauses q ++ map whereOf (default [] (filters options)))
  /\ (exists q',
        FirestoreRepo.applySorts options (Some q) ref = Returns (Some q')
        /\ FirestoreRepo.applySorts options (Some q) ref' = Returns (Some q')
        /\ clauses q' = clauses q ++ expectedPaging options)
  /\ (exists q',
        FirestoreRepo.applyLimit options (Some q) ref = Some q'
        /\ FirestoreRepo.applyLimit options (Some q) ref' = Some q'
        /\ clauses q' = clauses q ++ expectedLimit options).
Proof.
  split; [|split].
  - exists (chain q (map whereOf (default [] (filters options)))).
    rewrite clauses_chain.
    assert (H : forall r, FirestoreRepo.applyFilters options (Some q) r
                          = Some (chain q (map whereOf (default [] (filters options))))).
    { intros r. unfold FirestoreRepo.applyFilters.
      destruct (filters options) as [[|f fs]|]; try reflexivity.
      cbn [length Nat.eqb negb default]. apply (fold_on_query whereOf r (f :: fs) q). }
    now rewrite !H.
  - exists (chain q (expectedPaging options)).
    rewrite clauses_chain.
    assert (H : forall r, FirestoreRepo.applySorts options (Some q) r
                          = Returns (Some (chain q (expectedPaging options)))).
    { intros r. unfold FirestoreRepo.applySorts, expectedPaging, hasSorts, expectedSorts,
        expectedCursors.
      destruct (sorts options) as [[|s ss]|]; try reflexivity.
      cbn [length Nat.eqb negb].
      match goal with
      | |- context [fold_left ?f ?l ?a] =>
          replace (fold_left f l a) with (Some (chain q (map orderByOf (s :: ss))))
            by (symmetry; apply (fold_on_query orderByOf r (s :: ss) q))
      end.
      rewrite (applyCursor_on_query _ _ _ CStartAt) by auto. cbn [mbind JsResult_bind].
      rewrite (applyCursor_on_query _ _ _ CStartAfter) by auto. cbn [mbind JsResult_bind].
      rewrite (applyCursor_on_query _ _ _ CEndAt) by auto. cbn [mbind JsResult_bind].
      rewrite (applyCursor_on_query _ _ _ CEndBefore) by auto.
      cbn [mbind JsResult_bind mret JsResult_ret].
      now rewrite <- !chain_app. }
    now rewrite !H.
  - exists (chain q (expectedLimit options)).
    rewrite clauses_chain.
    assert (H : forall r, FirestoreRepo.applyLimit options (Some q) r
                          = Some (chain q (expectedLimit options))).
    { intros r. unfold FirestoreRepo.applyLimit, expectedLimit.
      destruct (limit options) as [n|]; [|reflexivity].
      now destruct (number_truthy n). }
    now rewrite !H.
Qed.

(** * Further properties of the one-shot operations *)

(** X8: when [add] succeeds, on any client, the entity it returns has
    the fields of the input and always carries an identifier: the one of
    the document reference the client handed back, which replaces whatever
    [id] the input had. *)
Theorem add_returns_identified_entity {S : Type} (cl : Client S) this item id (s s' : S) r :
  run cl (FirestoreRepo.add this item id) s = Ok (r, s') ->
  FirestoreEntity.fields r = FirestoreEntity.fields item
  /\ exists docRef s0,
       FirestoreEntity.id r = Some (DocumentReference.id docRef)
       /\ (handle cl (Collection_add (FirestoreRepo.collectionPath this) (toData item)) s
           = Ok (docRef, s0)
           \/ handle cl (Collection_doc (FirestoreRepo.collectionPath this) id) s
              = Ok (docRef, s0)).
Proof.
  destruct (string_truthy id) eqn:Hid.
  - destruct id as [i|]; [|discriminate Hid].
    rewrite (add_truthy_id _ _ _ Hid), ?run_async, ?run_invoke, ?run_await.
    destruct (handle cl (Collection_doc _ (Some i)) s) as [[docRef s0]|e] eqn:Hdoc;
      [|discriminate].
    rewrite ?run_async, ?run_invoke, ?run_await.
    destruct (handle cl (Ref_set docRef (toData item)) s0) as [[[] s1]|e]; [|discriminate].
    cbn [run]. intros H. injection H as <- <-.
    split; [reflexivity|]. exists docRef, s0. split; [reflexivity|now right].
  - rewrite (add_falsy_id _ _ _ Hid), ?run_async, ?run_invoke, ?run_await.
    destruct (handle cl (Collection_add _ (toData item)) s) as [[docRef s0]|e] eqn:Hadd;
      [|discriminate].
    cbn [run]. intros H. injection H as <- <-.
    split; [reflexivity|]. exists docRef, s0. split; [reflexivity|now left].
Qed.

Lemma add_returns_identified_entity_witness :
  exists st,
    run storeClient (FirestoreRepo.add todos testFragment (Some "xyz")) emptyStore
    = Ok (withId testFragment "xyz", st)
    /\ FirestoreEntity.id testFragment = Some "abc123"
    /\ FirestoreEntity.fields (withId testFragment "xyz")
       = FirestoreEntity.fields testFragment.
Proof.
  eexists. split; [reflexivity|]. split; [reflexivity|].
  exact (proj1 (add_returns_identified_entity storeClient todos testFragment
                  (Some "xyz") emptyStore _ _ eq_refl)).
Defined.

(** X9: on any client and in any state, each one-shot operation issues at
    most two calls, the first of which addresses the collection of the
    repository; [exists] issues no call that changes the store, and
    [update] and [delete] issue no call that can create a document. *)
Theorem one_shot_call_discipline {S : Type} (cl : Client S) this (s : S) :
  let path := FirestoreRepo.collectionPath this in
  (forall item id,
     length (trace cl (FirestoreRepo.add this item id) s) <= 2
     /\ head (trace cl (FirestoreRepo.add this item id) s)
        = Some (if string_truthy id then Collection_doc path id
                else Collection_add path (toData item)))
  /\ (forall item,
        length (trace cl (FirestoreRepo.update this item) s) <= 2
        /\ head (trace cl (FirestoreRepo.update this item) s)
           = Some (Collection_doc path (FirestoreEntity.id item))
        /\ forallb (fun c => negb (creates c)) (trace cl (FirestoreRepo.update this item) s)
           = true)
  /\ (forall id,
        length (trace cl (FirestoreRepo.delete this id) s) <= 2
        /\ head (trace cl (FirestoreRepo.delete this id) s)
           = Some (Collection_doc path (Some id))
        /\ forallb (fun c => negb (creates c)) (trace cl (FirestoreRepo.delete this id) s)
           = true)
  /\ (forall id,
        length (trace cl (FirestoreRepo.exists_ this id) s) <= 2
        /\ head (trace cl (FirestoreRepo.exists_ this id) s)
           = Some (Collection_doc path (Some id))
        /\ forallb (fun c => negb (writes c)) (trace cl (FirestoreRepo.exists_ this id) s)
           = true).
Proof.
  intros path. split; [|split; [|split]].
  - intros item id. destruct (string_truthy id) eqn:Hid.
    + destruct id as [i|]; [|discriminate Hid].
      rewrite (add_truthy_id _ _ _ Hid). fold path. rewrite ?trace_async, ?trace_invoke, ?trace_await.
      destruct (handle cl (Collection_doc path (Some i)) s) as [[docRef s0]|e];
        [|split; [simpl; lia|reflexivity]].
      rewrite ?trace_async, ?trace_invoke, ?trace_await.
      destruct (handle cl (Ref_set docRef (toData item)) s0) as [[[] s1]|e];
        (split; [simpl; lia|reflexivity]).
    + rewrite (add_falsy_id _ _ _ Hid). fold path. rewrite ?trace_async, ?trace_invoke, ?trace_await.
      destruct (handle cl (Collection_add path (toData item)) s) as [[docRef s0]|e];
        (split; [simpl; lia|reflexivity]).
  - intros item. unfold FirestoreRepo.update. fold path. rewrite ?trace_async, ?trace_invoke, ?trace_await.
    destruct (handle cl (Collection_doc path (FirestoreEntity.id item)) s) as [[docRef s0]|e];
      [|split; [simpl; lia|split; reflexivity]].
    rewrite ?trace_async, ?trace_invoke, ?trace_await.
    destruct (handle cl (Ref_update docRef (toData item)) s0) as [[[] s1]|e];
      (split; [simpl; lia|split; reflexivity]).
  - intros id. unfold FirestoreRepo.delete. fold path. rewrite ?trace_async, ?trace_invoke, ?trace_await.
    destruct (handle cl (Collection_doc path (Some id)) s) as [[docRef s0]|e];
      [|split; [simpl; lia|split; reflexivity]].
    rewrite ?trace_async, ?trace_invoke, ?trace_await.
    destruct (handle cl (Ref_delete docRef) s0) as [[[] s1]|e];
      (split; [simpl; lia|split; reflexivity]).
  - intros id. unfold FirestoreRepo.exists_. fold path. rewrite ?trace_async, ?trace_invoke, ?trace_await.
    destruct (handle cl (Collection_doc path (Some id)) s) as [[docRef s0]|e];
      [|split; [simpl; lia|split; reflexivity]].
    rewrite ?trace_async, ?trace_invoke, ?trace_await.
    destruct (handle cl (Ref_get docRef) s0) as [[doc s1]|e];
      (split; [simpl; lia|split; reflexivity]).
Qed.

(** ** On the reference client *)

Lemma store_doc_at (st : Store) path i :
  handle storeClient (Collection_doc path (Some i)) st
  = Ok (DocumentReference.mk path i, st).
Proof. reflexivity. Qed.

Lemma store_add_at (st : Store) path data :
  handle storeClient (Collection_add path data) st
  = reach st (Ok (DocumentReference.mk path (autoId (generated st)),
                  {| documents := <[(path, autoId (generated st)) := data]> (documents st);
                     generated := S (generated st);
                     fault := fault st |})).
Proof. reflexivity. Qed.

Lemma store_delete_at (st : Store) docRef :
  handle storeClient (Ref_delete docRef) st
  = reach st (Ok (tt, withDocuments st (delete (keyOf docRef) (documents st)))).
Proof. reflexivity. Qed.

Lemma store_run_add_generated this item id (st : Store) :
  string_truthy id = false ->
  run storeClient (FirestoreRepo.add this item id) st
  = reach st
      (Ok (withId item (autoId (generated st)),
           {| documents :=
                <[(FirestoreRepo.collectionPath this, autoId (generated st)) := toData item]>
                  (documents st);
              generated := S (generated st);
              fault := fault st |})).
Proof.
  intros Hid. rewrite (add_falsy_id _ _ _ Hid), ?run_async, ?run_invoke, ?run_await, store_add_at.
  unfold reach. now destruct (fault st).
Qed.

Lemma store_run_add_explicit this item i (st : Store) :
  string_truthy (Some i) = true ->
  run storeClient (FirestoreRepo.add this item (Some i)) st
  = reach st
      (Ok (withId item i,
           withDocuments st
             (<[(FirestoreRepo.collectionPath this, i) := toData item]> (documents st)))).
Proof.
  intros Hid. rewrite (add_truthy_id _ _ _ Hid), ?run_async, ?run_invoke, ?run_await, store_doc_at.
  cbn iota beta. rewrite ?run_async, ?run_invoke, ?run_await.
  change (handle storeClient (Ref_set ?r ?d) st)
    with (reach st (Ok (tt, withDocuments st (<[keyOf r := d]> (documents st))))).
  unfold reach. now destruct (fault st).
Qed.

Lemma store_run_delete this id (st : Store) :
  run storeClient (FirestoreRepo.delete this id) st
  = reach st
      (Ok (tt, withDocuments st
                 (delete (FirestoreRepo.collectionPath this, id) (documents st)))).
Proof.
  unfold FirestoreRepo.delete. rewrite ?run_async, ?run_invoke, ?run_await, store_doc_at.
  cbn iota beta. rewrite ?run_async, ?run_invoke, ?run_await, store_delete_at.
  unfold reach. now destruct (fault st).
Qed.

Lemma store_run_exists this id (st : Store) :
  run storeClient (FirestoreRepo.exists_ this id) st
  = reach st
      (Ok (match documents st !! (FirestoreRepo.collectionPath this, id) with
           | Some _ => true
           | None => false
           end, st)).
Proof.
  unfold FirestoreRepo.exists_. rewrite ?run_async, ?run_invoke, ?run_await, store_doc_at.
  cbn iota beta. rewrite ?run_async, ?run_invoke, ?run_await.
  change (handle storeClient (Ref_get ?r) st)
    with (reach st (Ok (DocumentSnapshot.mk r (documents st !! keyOf r), st))).
  unfold reach. now destruct (fault st).
Qed.

Lemma store_run_update this item (st : Store) :
  run storeClient (FirestoreRepo.update this item) st
  = match FirestoreEntity.id item with
    | None => Err InvalidArgument
    | Some id =>
        reach st
          match documents st !! (FirestoreRepo.collectionPath this, id) with
          | Some old =>
              Ok (tt, withDocuments st
                        (<[(FirestoreRepo.collectionPath this, id) := toData item ∪ old]>
                           (documents st)))
          | None => Err NotFound
          end
    end.
Proof.
  unfold FirestoreRepo.update. destruct (FirestoreEntity.id item) as [id|]; [|reflexivity].
  rewrite ?run_async, ?run_invoke, ?run_await, store_doc_at. cbn iota beta. rewrite ?run_async, ?run_invoke, ?run_await.
  change (handle storeClient (Ref_update ?r ?d) st)
    with (reach st
            match documents st !! keyOf r with
            | Some old => Ok (tt, withDocuments st (<[keyOf r := d ∪ old]> (documents st)))
            | None => Err NotFound
            end).
  change (keyOf (DocumentReference.mk (FirestoreRepo.collectionPath this) id))
    with (FirestoreRepo.collectionPath this, id).
  unfold reach. destruct (fault st); [reflexivity|].
  now destruct (documents st !! (FirestoreRepo.collectionPath this, id)).
Qed.

Lemma other_collection_key (k : string * string) path i : k.1 <> path -> (path, i) <> k.
Proof. intros Hk Heq. apply Hk. now rewrite <- Heq. Qed.

(** X10: on the reference client, no operation of a repository changes a
    document of another collection: after a successful [add], [update],
    [delete] or [exists], every document whose collection is not the one of
    the repository is as it was, and [exists] leaves the whole store as it
    was. *)
Theorem other_collections_untouched this (k : string * string) (st : Store) :
  k.1 <> FirestoreRepo.collectionPath this ->
  (forall item id r st',
     run storeClient (FirestoreRepo.add this item id) st = Ok (r, st') ->
     documents st' !! k = documents st !! k)
  /\ (forall item st',
        run storeClient (FirestoreRepo.update this item) st = Ok (tt, st') ->
        documents st' !! k = documents st !! k)
  /\ (forall id st',
        run storeClient (FirestoreRepo.delete this id) st = Ok (tt, st') ->
        documents st' !! k = documents st !! k)
  /\ (forall id b st',
        run storeClient (FirestoreRepo.exists_ this id) st = Ok (b, st') ->
        st' = st).
Proof.
  intros Hk. split; [|split; [|split]].
  - intros item id r st'. destruct (string_truthy id) eqn:Hid.
    + destruct id as [i|]; [|discriminate Hid].
      rewrite (store_run_add_explicit _ _ _ _ Hid). unfold reach.
      destruct (fault st); [discriminate|]. intros H. injection H as _ <-.
      cbn. apply lookup_insert_ne. now apply other_collection_key.
    + rewrite (store_run_add_generated _ _ _ _ Hid). unfold reach.
      destruct (fault st); [discriminate|]. intros H. injection H as _ <-.
      cbn. apply lookup_insert_ne. now apply other_collection_key.
  - intros item st'. rewrite store_run_update.
    destruct (FirestoreEntity.id item) as [id|]; [|discriminate].
    unfold reach. destruct (fault st); [discriminate|].
    destruct (documents st !! (FirestoreRepo.collectionPath this, id)); [|discriminate].
    intros H. injection H as <-. cbn. apply lookup_insert_ne. now apply other_collection_key.
  - intros id st'. rewrite store_run_delete. unfold reach.
    destruct (fault st); [discriminate|]. intros H. injection H as <-.
    cbn. apply lookup_delete_ne. now apply other_collection_key.
  - intros id b st'. rewrite store_run_exists. unfold reach.
    destruct (fault st); [discriminate|]. intros H. now injection H as _ <-.
Qed.

Lemma other_collections_untouched_witness :
  ("users", "abc123").1 <> FirestoreRepo.collectionPath todos
  /\ exists st',
       run storeClient (FirestoreRepo.delete todos "abc123") twoCollections = Ok (tt, st')
       /\ documents st' !! ("users", "abc123")
          = documents twoCollections !! ("users", "abc123").
Proof.
  assert (Hne : ("users", "abc123").1 <> FirestoreRepo.collectionPath todos)
    by discriminate.
  split; [exact Hne|].
  eexists. split; [reflexivity|].
  destruct (other_collections_untouched todos ("users", "abc123") twoCollections Hne)
    as (_ & _ & Hdelete & _).
  apply (Hdelete "abc123"). reflexivity.
Defined.

(** X11: on the reference client, [delete] succeeds whether or not the
    document exists; afterwards [exists] of that id is [false], the other
    documents are as they were, a store that did not hold the document is
    unchanged, and deleting again succeeds and changes nothing. *)
Theorem delete_then_gone this id (st : Store) :
  fault st = None ->
  let path := FirestoreRepo.collectionPath this in
  exists st',
    run storeClient (FirestoreRepo.delete this id) st = Ok (tt, st')
    /\ run storeClient (FirestoreRepo.exists_ this id) st' = Ok (false, st')
    /\ (forall k, k <> (path, id) -> documents st' !! k = documents st !! k)
    /\ (documents st !! (path, id) = None -> st' = st)
    /\ run storeClient (FirestoreRepo.delete this id) st' = Ok (tt, st').
Proof.
  intros Hfault path.
  set (st' := withDocuments st (delete (path, id) (documents st))).
  assert (Hfault' : fault st' = None) by exact Hfault.
  exists st'. rewrite store_run_exists, !store_run_delete. fold path.
  unfold reach. rewrite Hfault, Hfault'.
  split; [reflexivity|]. split.
  { replace (documents st' !! (path, id)) with (@None DocumentData); [reflexivity|].
    symmetry. apply lookup_delete_eq. }
  split; [intros k Hk; now apply lookup_delete_ne|].
  split.
  - intros Hnone. unfold st', withDocuments. rewrite (delete_id _ _ Hnone).
    now destruct st.
  - f_equal. f_equal. unfold st', withDocuments. cbn [documents generated fault].
    now rewrite delete_delete_eq.
Qed.

Lemma delete_then_gone_witness :
  fault oneDocStore = None
  /\ documents oneDocStore !! ("todos", "abc123") = Some (toData testEntity)
  /\ exists st',
       run storeClient (FirestoreRepo.delete todos "abc123") oneDocStore = Ok (tt, st')
       /\ run storeClient (FirestoreRepo.exists_ todos "abc123") st' = Ok (false, st').
Proof.
  split; [reflexivity|]. split; [reflexivity|].
  destruct (delete_then_gone todos "abc123" oneDocStore eq_refl)
    as (st' & Hdelete & Hexists & _).
  exists st'. split; [exact Hdelete | exact Hexists].
Defined.

(** X13: [update] hands the whole fragment to the client, its [id]
    included: on the reference client, after a successful [update] the
    stored document has a field [id] that holds its identifier, whether or
    not the document had that field before. *)
Theorem update_writes_id_field this item id (old : DocumentData) (st : Store) :
  let path := FirestoreRepo.collectionPath this in
  FirestoreEntity.id item = Some id ->
  fault st = None ->
  documents st !! (path, id) = Some old ->
  toData item !! "id" = Some (VStr id)
  /\ exists st' stored,
       run storeClient (FirestoreRepo.update this item) st = Ok (tt, st')
       /\ documents st' !! (path, id) = Some stored
       /\ stored !! "id" = Some (VStr id).
Proof.
  intros path Hid Hfault Hold.
  assert (Hfield : toData item !! "id" = Some (VStr id)).
  { unfold toData. rewrite Hid. apply lookup_insert_eq. }
  split; [exact Hfield|].
  exists (withDocuments st (<[(path, id) := toData item ∪ old]> (documents st))),
         (toData item ∪ old).
  rewrite store_run_update, Hid. fold path. unfold reach. rewrite Hfault, Hold.
  split; [reflexivity|]. split; [apply lookup_insert_eq|].
  now apply lookup_union_Some_l.
Qed.

Lemma update_writes_id_field_witness :
  FirestoreEntity.id testFragment = Some "abc123"
  /\ fault oneDocStore = None
  /\ documents oneDocStore !! ("todos", "abc123") = Some (toData testEntity)
  /\ toData testEntity !! "id" = None
  /\ exists st' stored,
       run storeClient (FirestoreRepo.update todos testFragment) oneDocStore = Ok (tt, st')
       /\ documents st' !! ("todos", "abc123") = Some stored
       /\ stored !! "id" = Some (VStr "abc123").
Proof.
  split; [reflexivity|]. split; [reflexivity|]. split; [reflexivity|].
  split; [reflexivity|].
  exact (proj2 (update_writes_id_field todos testFragment "abc123" (toData testEntity)
                  oneDocStore eq_refl eq_refl eq_refl)).
Defined.

(** X14: repositories that the factory creates for different collection
    paths do not see each other's documents: on the reference client, after
    [add] with an explicit id through the repository of one path, [exists]
    of that id is [true] through a repository of the same path and stays
    [false] through the repository of another path that held no such
    document. *)
Theorem factory_repositories_isolated path path' item id (st : Store) :
  path <> path' ->
  id <> "" ->
  fault st = None ->
  documents st !! (path', id) = None ->
  exists r st',
    run storeClient (FirestoreRepo.add (FirestoreRepoFactory.create path) item (Some id)) st
    = Ok (r, st')
    /\ run storeClient (FirestoreRepo.exists_ (FirestoreRepoFactory.create path) id) st'
       = Ok (true, st')
    /\ run storeClient (FirestoreRepo.exists_ (FirestoreRepoFactory.create path') id) st'
       = Ok (false, st').
Proof.
  intros Hpath Hid Hfault Hnone.
  set (st' := withDocuments st (<[(path, id) := toData item]> (documents st))).
  assert (Hfault' : fault st' = None) by exact Hfault.
  assert (Hown : documents st' !! (path, id) = Some (toData item))
    by apply lookup_insert_eq.
  assert (Hother : documents st' !! (path', id) = None).
  { unfold st'. cbn. rewrite lookup_insert_ne; [exact Hnone|]. congruence. }
  exists (withId item id), st'.
  rewrite (store_run_add_explicit _ _ _ _ (string_truthy_nonempty _ Hid)).
  rewrite !store_run_exists.
  change (FirestoreRepo.collectionPath (FirestoreRepoFactory.create path)) with path.
  change (FirestoreRepo.collectionPath (FirestoreRepoFactory.create path')) with path'.
  unfold reach. rewrite Hfault, Hfault', Hown, Hother.
  repeat split.
Qed.

Lemma factory_repositories_isolated_witness :
  "todos" <> "users"
  /\ "abc123" <> ""
  /\ fault emptyStore = None
  /\ documents emptyStore !! ("users", "abc123") = None
  /\ exists r st',
       run storeClient
         (FirestoreRepo.add (FirestoreRepoFactory.create "todos") testEntity (Some "abc123"))
         emptyStore = Ok (r, st')
       /\ run storeClient
            (FirestoreRepo.exists_ (FirestoreRepoFactory.create "users") "abc123") st'
          = Ok (false, st').
Proof.
  assert (H1 : "todos" <> "users") by discriminate.
  assert (H2 : "abc123" <> "") by discriminate.
  split; [exact H1|]. split; [exact H2|]. split; [reflexivity|]. split; [reflexivity|].
  destruct (factory_repositories_isolated "todos" "users" testEntity "abc123" emptyStore
              H1 H2 eq_refl eq_refl)
    as (r & st' & Hadd & _ & Hother).
  exists r, st'. split; [exact Hadd | exact Hother].
Defined.

(** ** A positive limit *)

Lemma number_positive_truthy n : number_positive n = true -> number_truthy n = true.
Proof. destruct n as [s|s| |s m e]; try destruct s; simpl; congruence. Qed.

(** X15: every positive limit is attached: when the supplied limit is a
    number greater than zero, [applyOptions] returns a query whose outermost
    call is [limit] with that number, chained on a query without any other
    limit. *)
Theorem positive_limit_attached_last options path n :
  limit options = Some n ->
  number_positive n = true ->
  exists q,
    FirestoreRepo.applyOptions options (CollectionRef path) = Returns (Some (Limit q n))
    /\ clauses q = expectedFilters options ++ expectedPaging options
    /\ forall c, In c (clauses q) -> isLimit c = false.
Proof.
  intros Hn Hpos. apply number_positive_truthy in Hpos.
  exists (chain (CollectionRef path) (expectedFilters options ++ expectedPaging options)).
  rewrite applyOptions_chained, clauses_chain. cbn [clauses app].
  split; [|split; [reflexivity|apply no_limit_before_limit]].
  unfold expectedClauses, expectedLimit. rewrite Hn, Hpos, app_assoc.
  rewrite chained_nonempty.
  - now rewrite chain_snoc.
  - intros H. apply app_eq_nil in H as [_ H]. discriminate H.
Qed.

Lemma positive_limit_attached_last_witness :
  limit sortedAllCursors = Some (number_of_Z 2)
  /\ number_positive (number_of_Z 2) = true
  /\ exists q,
       FirestoreRepo.applyOptions sortedAllCursors todosRef
       = Returns (Some (Limit q (number_of_Z 2))).
Proof.
  split; [reflexivity|]. split; [reflexivity|].
  destruct (positive_limit_attached_last sortedAllCursors "todos" (number_of_Z 2)
              eq_refl eq_refl) as (q & Hq & _).
  exists q. exact Hq.
Defined.

(** * The translation against a client that can reject a call *)

Lemma firstRejection_app b q cs cs' :
  firstRejection b q (cs ++ cs')
  = match firstRejection b q cs with
    | Some e => Some e
    | None => firstRejection b (chain q cs) cs'
    end.
Proof.
  revert q. induction cs as [|c cs IH]; intros q; [reflexivity|].
  simpl. destruct (reject b q c); [reflexivity|]. apply IH.
Qed.

Lemma firstRejection_accepts b q cs :
  firstRejection b q cs = None ->
  forall c, In c cs -> exists q', reject b q' c = None.
Proof.
  revert q. induction cs as [|c0 cs IH]; intros q H c Hc; [destruct Hc|].
  simpl in H. destruct (reject b q c0) eqn:Hr; [discriminate|].
  destruct Hc as [<-|Hc]; [eauto|]. eapply IH; eauto.
Qed.

Lemma firstRejection_rejects b q cs e :
  firstRejection b q cs = Some e ->
  exists q' c, In c cs /\ reject b q' c = Some e.
Proof.
  revert q. induction cs as [|c0 cs IH]; intros q H; [discriminate|].
  simpl in H. destruct (reject b q c0) eqn:Hr.
  - injection H as ->. exists q, c0. split; [now left|exact Hr].
  - destruct (IH _ H) as (q' & c & Hin & Hc). exists q', c. split; [now right|exact Hc].
Qed.

Lemma firstRejection_all_accepted b q cs :
  (forall q' c, In c cs -> reject b q' c = None) -> firstRejection b q cs = None.
Proof.
  revert q. induction cs as [|c0 cs IH]; intros q H; [reflexivity|].
  simpl. rewrite (H q c0 (or_introl eq_refl)). apply IH.
  intros q' c Hc. apply H. now right.
Qed.

Lemma firstRejection_permissive q cs : firstRejection permissive q cs = None.
Proof. now apply firstRejection_all_accepted. Qed.

Lemma attempted_nil b ref cs : attempted b ref cs [] = Returns (chained ref cs).
Proof. unfold attempted. simpl. now rewrite app_nil_r. Qed.

(** Attempting [a1] and, on the query that results, [a2]. *)
Lemma attempted_app b ref cs a1 a2 :
  attempted b ref cs (a1 ++ a2)
  = match firstRejection b (chain ref cs) a1 with
    | Some e => Throws (ClientError e)
    | None => attempted b ref (cs ++ a1) a2
    end.
Proof.
  unfold attempted. rewrite firstRejection_app.
  destruct (firstRejection b (chain ref cs) a1); [reflexivity|].
  now rewrite chain_app, app_assoc.
Qed.

Lemma chainOn_rejected b q c e :
  reject b q c = Some e -> chainOn b q c = Throws (ClientError e).
Proof. unfold chainOn. now intros ->. Qed.

Lemma chainOn_accepted b q c :
  reject b q c = None -> chainOn b q c = Returns (chainClause q c).
Proof. unfold chainOn. now intros ->. Qed.

Lemma forEach_attempted {A : Type} b (f : A -> Clause) ref (l : list A) cs :
  forEach l
    (fun query x => query ← chainOn b (orElse query ref) (f x); Returns (Some query))
    (chained ref cs)
  = attempted b ref cs (map f l).
Proof.
  revert cs. induction l as [|x l IH]; intros cs; [symmetry; apply attempted_nil|].
  cbn [forEach map]. unfold attempted. cbn [firstRejection].
  rewrite orElse_chained.
  destruct (reject b (chain ref cs) (f x)) as [e|] eqn:Hr;
    [now rewrite (chainOn_rejected _ _ _ _ Hr)|].
  rewrite (chainOn_accepted _ _ _ Hr).
  cbn [mbind JsResult_bind mret JsResult_ret].
  rewrite <- chain_snoc.
  replace (Some (chain ref (cs ++ [f x]))) with (chained ref (cs ++ [f x]))
    by (now destruct cs).
  rewrite IH. unfold attempted. now rewrite <- app_assoc.
Qed.

Lemma applyFiltersWith_attempted b options ref cs :
  FirestoreRepo.applyFiltersWith b options (chained ref cs) ref
  = attempted b ref cs (expectedFilters options).
Proof.
  unfold FirestoreRepo.applyFiltersWith, expectedFilters.
  destruct (filters options) as [fs|]; [|symmetry; apply attempted_nil].
  destruct fs as [|f fs]; [symmetry; apply attempted_nil|].
  cbn [length Nat.eqb negb].
  apply (forEach_attempted b whereOf ref (f :: fs) cs).
Qed.

Lemma applyCursorWith_attempted b (c : any) method (C : Value -> Clause) ref cs :
  cs <> [] ->
  FirestoreRepo.applyCursorWith b c method C (chained ref cs)
  = attempted b ref cs (option_list (C <$> c)).
Proof.
  intros Hne. destruct c as [v|]; [|symmetry; apply attempted_nil].
  unfold FirestoreRepo.applyCursorWith, attempted.
  change (option_list (C <$> Some v)) with [C v].
  rewrite (chained_nonempty _ _ Hne). cbn [invokeOn firstRejection].
  destruct (reject b (chain ref cs) (C v)) as [e|] eqn:Hr;
    [now rewrite (chainOn_rejected _ _ _ _ Hr)|].
  rewrite (chainOn_accepted _ _ _ Hr).
  cbn [mbind JsResult_bind mret JsResult_ret]. rewrite <- chain_snoc.
  f_equal. symmetry. apply chained_nonempty. now destruct cs.
Qed.

Lemma applyLimitWith_attempted b options ref cs :
  FirestoreRepo.applyLimitWith b options (chained ref cs) ref
  = attempted b ref cs (expectedLimit options).
Proof.
  unfold FirestoreRepo.applyLimitWith, expectedLimit.
  destruct (limit options) as [n|]; [|symmetry; apply attempted_nil].
  destruct (number_truthy n); [|symmetry; apply attempted_nil].
  unfold attempted. cbn [firstRejection]. rewrite orElse_chained.
  destruct (reject b (chain ref cs) (CLimit n)) as [e|] eqn:Hr;
    [now rewrite (chainOn_rejected _ _ _ _ Hr)|].
  rewrite (chainOn_accepted _ _ _ Hr).
  cbn [mbind JsResult_bind mret JsResult_ret]. rewrite <- chain_snoc.
  f_equal. now destruct cs.
Qed.

Lemma cursor_step b (c : any) method (C : Value -> Clause) ref l rest
    (K : option Query -> JsResult (option Query)) :
  l <> [] ->
  (forall l', l' <> [] -> K (chained ref l') = attempted b ref l' rest) ->
  (query ← FirestoreRepo.applyCursorWith b c method C (chained ref l); K query)
  = attempted b ref l (option_list (C <$> c) ++ rest).
Proof.
  intros Hne HK. rewrite (applyCursorWith_attempted _ _ _ _ _ _ Hne), attempted_app.
  unfold attempted at 1.
  destruct (firstRejection b (chain ref l) (option_list (C <$> c))); [reflexivity|].
  cbn [mbind JsResult_bind]. apply HK. now destruct l.
Qed.

Lemma applySortsWith_attempted b options ref cs :
  FirestoreRepo.applySortsWith b options (chained ref cs) ref
  = attempted b ref cs (expectedPaging options).
Proof.
  unfold FirestoreRepo.applySortsWith, expectedPaging, hasSorts, expectedSorts,
    expectedCursors.
  destruct (sorts options) as [ss|]; [|symmetry; apply attempted_nil].
  destruct ss as [|s ss]; [symmetry; apply attempted_nil|].
  cbn [length Nat.eqb negb].
  match goal with
  | |- context [forEach ?l ?f ?a] =>
      replace (forEach l f a) with (attempted b ref cs (map orderByOf (s :: ss)))
        by (symmetry; apply (forEach_attempted b orderByOf ref (s :: ss) cs))
  end.
  rewrite attempted_app. unfold attempted at 1.
  destruct (firstRejection b (chain ref cs) (map orderByOf (s :: ss))); [reflexivity|].
  cbn [mbind JsResult_bind].
  assert (Hne : cs ++ map orderByOf (s :: ss) <> []) by (now destruct cs).
  revert Hne. generalize (cs ++ map orderByOf (s :: ss)). intros l Hne.
  apply cursor_step; [exact Hne|]. intros l1 H1.
  apply cursor_step; [exact H1|]. intros l2 H2.
  apply cursor_step; [exact H2|]. intros l3 H3.
  rewrite <- (app_nil_r (option_list (CEndBefore <$> endBefore options))).
  apply cursor_step; [exact H3|]. intros l4 H4.
  symmetry. apply attempted_nil.
Qed.

(** The translation on a builder [b] throws the error of the first call
    that [b] rejects, among the calls it chains, and else returns what the
    translation returns when every call is accepted. *)
Lemma applyOptionsWith_attempted b options ref :
  FirestoreRepo.applyOptionsWith b options ref
  = match firstRejection b ref (expectedClauses options) with
    | Some e => Throws (ClientError e)
    | None => FirestoreRepo.applyOptions options ref
    end.
Proof.
  rewrite applyOptions_chained.
  change (match firstRejection b ref (expectedClauses options) with
          | Some e => Throws (ClientError e)
          | None => Returns (chained ref (expectedClauses options))
          end) with (attempted b ref [] (expectedClauses options)).
  unfold FirestoreRepo.applyOptionsWith, expectedClauses. cbv zeta.
  pose proof (applyFiltersWith_attempted b options ref []) as HF.
  cbn [chained] in HF. rewrite HF, attempted_app. unfold attempted at 1.
  cbn [chain fold_left].
  destruct (firstRejection b ref (expectedFilters options)); [reflexivity|].
  cbn [mbind JsResult_bind app].
  rewrite applySortsWith_attempted, attempted_app. unfold attempted at 1.
  destruct (firstRejection b (chain ref (expectedFilters options)) (expectedPaging options));
    [reflexivity|].
  cbn [mbind JsResult_bind].
  rewrite applyLimitWith_attempted. unfold attempted.
  destruct (firstRejection b _ (expectedLimit options)); reflexivity.
Qed.

Lemma queryFnWith_attempted b options ref :
  FirestoreRepo.queryFnWith b options ref
  = match firstRejection b ref (expectedClauses options) with
    | Some e => Throws (ClientError e)
    | None => Returns (chain ref (expectedClauses options))
    end.
Proof.
  unfold FirestoreRepo.queryFnWith. rewrite applyOptionsWith_attempted.
  destruct (firstRejection b ref (expectedClauses options)); [reflexivity|].
  rewrite applyOptions_chained. cbn [mbind JsResult_bind mret JsResult_ret].
  now rewrite orElse_chained.
Qed.



(** X1: on any builder, [applyOptions] throws no error of its own, never
    the [TypeError] of a cursor call on a [null] query: what it throws is
    the error of a call that it chains and the client rejects; when every
    call is accepted it returns what the translation returns on a client
    that accepts everything; and it returns [null] exactly when there is
    nothing to chain: filters absent or empty, sorts absent or empty, limit
    absent or falsy. *)
Theorem applyOptionsWith_outcome (b : Builder) options ref :
  (forall message,
     FirestoreRepo.applyOptionsWith b options ref <> Throws (TypeError message))
  /\ (forall e,
        FirestoreRepo.applyOptionsWith b options ref = Throws (ClientError e) ->
        exists q c, In c (expectedClauses options) /\ reject b q c = Some e)
  /\ ((forall q c, In c (expectedClauses options) -> reject b q c = None) ->
      FirestoreRepo.applyOptionsWith b options ref
      = FirestoreRepo.applyOptions options ref)
  /\ (forall query,
        FirestoreRepo.applyOptionsWith b options ref = Returns query ->
        FirestoreRepo.applyOptions options ref = Returns query)
  /\ (FirestoreRepo.applyOptionsWith b options ref = Returns None
      <-> (filters options = None \/ filters options = Some [])
          /\ (sorts options = None \/ sorts options = Some [])
          /\ (limit options = None
              \/ exists n, limit options = Some n /\ number_truthy n = false)).
Proof.
  rewrite applyOptionsWith_attempted, applyOptions_chained.
  split; [|split; [|split; [|split]]].
  - intros message. now destruct (firstRejection b ref (expectedClauses options)).
  - intros e H.
    destruct (firstRejection b ref (expectedClauses options)) as [e'|] eqn:Hfr;
      [|discriminate].
    injection H as ->. now apply (firstRejection_rejects _ _ _ _ Hfr).
  - intros Hall. now rewrite (firstRejection_all_accepted _ _ _ Hall).
  - intros query. now destruct (firstRejection b ref (expectedClauses options)).
  - split.
    + intros H.
      destruct (firstRejection b ref (expectedClauses options)); [discriminate|].
      injection H as H. apply chained_None in H. unfold expectedClauses in H.
      apply app_eq_nil in H as [Hf H]. apply app_eq_nil in H as [Hp Hl].
      auto using expectedFilters_nil, expectedPaging_nil, expectedLimit_nil.
    + intros (Hf & Hs & Hl). now rewrite (expectedClauses_nil _ Hf Hs Hl).
Qed.

(** * The identifier that [add] resolves *)

(** C9: [add] with the empty string as id is [add] without an id: the
    guard is [!id], so the only call on the client is the creation with a
    generated id. When the creation succeeds, on any client, the identifier
    of the entity returned is the identifier of the reference the client
    created, and its fields are those of the item; when it fails, [add]
    fails with the same error. On the reference client the identifier
    returned is the generated one, which is not the empty string, and no
    document is written under the empty string. *)
Theorem add_empty_id_generates {S : Type} (cl : Client S) this item (s : S) (st : Store) :
  let path := FirestoreRepo.collectionPath this in
  FirestoreRepo.add this item (Some "") = FirestoreRepo.add this item None
  /\ trace cl (FirestoreRepo.add this item (Some "")) s
     = [Collection_add path (toData item)]
  /\ (forall docRef s',
        handle cl (Collection_add path (toData item)) s = Ok (docRef, s') ->
        exists r,
          run cl (FirestoreRepo.add this item (Some "")) s = Ok (r, s')
          /\ FirestoreEntity.id r = Some (DocumentReference.id docRef)
          /\ FirestoreEntity.fields r = FirestoreEntity.fields item)
  /\ (forall e,
        handle cl (Collection_add path (toData item)) s = Err e ->
        run cl (FirestoreRepo.add this item (Some "")) s = Err e)
  /\ (fault st = None ->
      exists r st',
        run storeClient (FirestoreRepo.add this item (Some "")) st = Ok (r, st')
        /\ FirestoreEntity.id r = Some (autoId (generated st))
        /\ FirestoreEntity.id r <> Some ""
        /\ documents st' !! (path, autoId (generated st)) = Some (toData item)
        /\ documents st' !! (path, "") = documents st !! (path, "")).
Proof.
  intros path. split; [reflexivity|].
  pose proof (add_falsy_id this item (Some "") eq_refl) as Hadd. fold path in Hadd.
  split; [|split; [|split; [|]]].
  - rewrite Hadd, trace_async, trace_await.
    now destruct (handle cl _ s) as [[docRef s']|e].
  - intros docRef s' H. rewrite Hadd, run_async, run_await, H. eexists. repeat split.
  - intros e H. now rewrite Hadd, run_async, run_await, H.
  - intros Hfault.
    rewrite (store_run_add_generated this item (Some "") st eq_refl). fold path.
    unfold reach. rewrite Hfault. eexists; eexists. split; [reflexivity|].
    split; [reflexivity|]. split.
    + cbn. intros H. injection H as H. now apply (autoId_nonempty (generated st)).
    + split; [apply lookup_insert_eq|]. cbn. apply lookup_insert_ne.
      intros H. injection H as H. now apply (autoId_nonempty (generated st)).
Qed.




(** X12: on the reference client, a successful [add], with or without an
    explicit id, is seen at once: [exists] of the returned identifier is
    [true], and the document stored under it is the item as it was handed
    in. For an item without identifier (no [id], and no property [id] among
    its fields) the stored document is the fields of the item and has no
    property [id]: the resolved identifier is in the returned entity only. *)
Theorem add_then_stored this item id (st : Store) :
  fault st = None ->
  let path := FirestoreRepo.collectionPath this in
  exists r rid st' stored,
    run storeClient (FirestoreRepo.add this item id) st = Ok (r, st')
    /\ FirestoreEntity.id r = Some rid
    /\ run storeClient (FirestoreRepo.exists_ this rid) st' = Ok (true, st')
    /\ documents st' !! (path, rid) = Some stored
    /\ stored = toData item
    /\ (FirestoreEntity.id item = None ->
        FirestoreEntity.fields item !! "id" = None ->
        stored = FirestoreEntity.fields item /\ stored !! "id" = None).
Proof.
  intros Hfault path.
  assert (Hbody : FirestoreEntity.id item = None ->
                  FirestoreEntity.fields item !! "id" = None ->
                  toData item = FirestoreEntity.fields item /\ toData item !! "id" = None)
    by (unfold toData; now intros ->).
  destruct (string_truthy id) eqn:Hid.
  - destruct id as [i|]; [|discriminate Hid].
    set (st' := withDocuments st (<[(path, i) := toData item]> (documents st))).
    assert (Hfault' : fault st' = None) by exact Hfault.
    assert (Hread : documents st' !! (path, i) = Some (toData item))
      by apply lookup_insert_eq.
    exists (withId item i), i, st', (toData item).
    rewrite (store_run_add_explicit _ _ _ _ Hid), store_run_exists. fold path.
    unfold reach. rewrite Hfault, Hfault', Hread.
    repeat split; try reflexivity; now apply Hbody.
  - set (rid := autoId (generated st)).
    set (st' := {| documents := <[(path, rid) := toData item]> (documents st);
                   generated := S (generated st); fault := None |}).
    assert (Hfault' : fault st' = None) by reflexivity.
    assert (Hread : documents st' !! (path, rid) = Some (toData item))
      by apply lookup_insert_eq.
    exists (withId item rid), rid, st', (toData item).
    rewrite (store_run_add_generated _ _ _ _ Hid), store_run_exists. fold path.
    unfold reach. rewrite Hfault, Hfault', Hread.
    repeat split; try reflexivity; now apply Hbody.
Qed.

Lemma add_then_stored_witness :
  fault emptyStore = None
  /\ FirestoreEntity.id testEntity = None
  /\ FirestoreEntity.fields testEntity !! "id" = None
  /\ exists r rid st' stored,
       run storeClient (FirestoreRepo.add todos testEntity None) emptyStore = Ok (r, st')
       /\ FirestoreEntity.id r = Some rid
       /\ run storeClient (FirestoreRepo.exists_ todos rid) st' = Ok (true, st')
       /\ documents st' !! ("todos", rid) = Some stored
       /\ stored !! "id" = None.
Proof.
  split; [reflexivity|]. split; [reflexivity|]. split; [reflexivity|].
  destruct (add_then_stored todos testEntity None emptyStore eq_refl)
    as (r & rid & st' & stored & Hrun & Hid & Hexists & Hdoc & _ & Hbody).
  exists r, rid, st', stored. split; [exact Hrun|]. split; [exact Hid|].
  split; [exact Hexists|]. split; [exact Hdoc|].
  exact (proj2 (Hbody eq_refl eq_refl)).
Defined.

(** * Errors of the client *)

Lemma settle_await {S A : Type} (cl : Client S) c (k : Response c -> Program A) s :
  settle cl (Await c k) s
  = match handle cl c s with
    | Ok (x, s') => settle cl (k x) s'
    | Err e => RejectedWith e
    end.
Proof. reflexivity. Qed.

Lemma settle_invoke {S A : Type} (cl : Client S) c (k : Response c -> Program A) s :
  settle cl (Invoke c k) s
  = match handle cl c s with
    | Ok (x, s') => settle cl (k x) s'
    | Err e => ThrownWith e
    end.
Proof. reflexivity. Qed.

(** An [async] function never throws: it returns a promise that rejects. *)
Lemma settle_async {S A : Type} (cl : Client S) (p : Program A) s :
  settle cl (async p) s
  = match settle cl p s with
    | ThrownWith e => RejectedWith e
    | settled => settled
    end.
Proof.
  revert s. induction p as [a|e|e|c k IH]; intros s; try reflexivity.
  simpl. destruct (handle cl c s) as [[x s']|e]; apply IH.
Qed.

Lemma fetchWith_attempted b this options :
  FirestoreRepo.fetchWith b this options
  = match firstRejection b (CollectionRef (FirestoreRepo.collectionPath this))
            (expectedClauses (default noOptions options)) with
    | Some e => Throws (ClientError e)
    | None =>
        Returns (Collection_valueChanges
                   (chain (CollectionRef (FirestoreRepo.collectionPath this))
                          (expectedClauses (default noOptions options))) "id")
    end.
Proof.
  unfold FirestoreRepo.fetchWith. cbv zeta. rewrite queryFnWith_attempted.
  now destruct (firstRejection b _ _).
Qed.

Lemma fetchSnapshotsWith_attempted b this options events :
  FirestoreRepo.fetchSnapshotsWith b this options events
  = match firstRejection b (CollectionRef (FirestoreRepo.collectionPath this))
            (expectedClauses (default noOptions options)) with
    | Some e => Throws (ClientError e)
    | None =>
        Returns (Collection_snapshotChanges
                   (chain (CollectionRef (FirestoreRepo.collectionPath this))
                          (expectedClauses (default noOptions options))) events)
    end.
Proof.
  unfold FirestoreRepo.fetchSnapshotsWith. cbv zeta. rewrite queryFnWith_attempted.
  now destruct (firstRejection b _ _).
Qed.

Ltac failing :=
  repeat (rewrite ?settle_async, ?settle_invoke, ?settle_await,
            ?trace_async, ?trace_invoke, ?trace_await;
          match goal with
          | H : handle _ _ _ = _ |- _ => rewrite H; clear H
          end;
          cbn beta iota);
  split; reflexivity.


